(** * tstorie: the binary-size report [visualize_binary_size.py]

    A shallow embedding of the report script and the properties of its
    three functions [format_size], [draw_bar] and [main].

    Python values are modelled as follows.
    - [int] is [Z] (unbounded).
    - [float] is IEEE-754 binary64.  A finite double is a dyadic number
      [mant * 2 ^ expo]; every float operation of the script is "compute the
      exact result, then round to nearest, ties to even", written out over
      [Z].  The model is compared with the Standard Library's [SpecFloat]
      (the specification of binary64 behind Rocq's primitive floats) in
      lemma [binary64_agreement].
    - [str] is a list of Unicode code points, so that [len], padding and
      slicing count characters, as in Python, and not bytes.
    - An exception is a [Raise] result.  The limits of CPython on a 64-bit
      platform are part of the model: a repetition count must fit the index
      type, and an [int] of more than 4300 digits is not converted to a
      string (version 3.11 and later, default limit).  Running out of memory
      is not modelled.
    - [print] appends a line to the text that the script hands to the
      standard output of a [World]; [deliver] is the encoding of that text
      to the bytes of the standard output, which fails on a character that
      the encoding of the standard output does not have. *)

From Stdlib Require Import ZArith List String Ascii Bool Lia.
From Stdlib Require Import DecimalString.
From Stdlib Require SpecFloat.
Import ListNotations.
Local Open Scope Z_scope.

(** ** Exceptions *)

Inductive exn : Type :=
| OverflowError
| ZeroDivisionError
| ValueError
| UnicodeEncodeError.

Inductive result (A : Type) : Type :=
| Ok (a : A)
| Raise (e : exn).

Arguments Ok {A} a.
Arguments Raise {A} e.

Definition bind {A B : Type} (r : result A) (k : A -> result B) : result B :=
  match r with
  | Ok a => k a
  | Raise e => Raise e
  end.

Notation "x <- r ;; k" := (bind r (fun x => k))
  (at level 61, r at next level, right associativity).

(** ** Python [float]: binary64 over [Z] *)

Module Float.

(** A finite double, with value [mant * 2 ^ expo]. *)
Record float : Type := mkFloat { mant : Z; expo : Z }.

Definition prec : Z := 53.
Definition emin : Z := -1074.
Definition emax : Z := 1024.

(** [rne_div a b]: the integer nearest to [a / b], ties to the even one
    ([0 <= a], [0 < b]). *)
Definition rne_div (a b : Z) : Z :=
  let q := a / b in
  match 2 * (a mod b) ?= b with
  | Lt => q
  | Gt => q + 1
  | Eq => if Z.even q then q else q + 1
  end.

(** [ilog2_ratio n d] is [floor (log2 (n / d))] for [0 < n] and [0 < d]. *)
Definition ilog2_ratio (n d : Z) : Z :=
  if d <=? n then Z.log2 (n / d) else - Z.log2_up ((d + n - 1) / n).

(** The double nearest to the positive rational [n / d]: the quotient is
    rounded on the grid [2 ^ e], where [e] leaves 53 significant bits and is
    at least the exponent of the subnormal numbers. *)
Definition round_pos (n d : Z) : float :=
  let e := Z.max (ilog2_ratio n d - (prec - 1)) emin in
  let q := if 0 <=? e then rne_div n (d * 2 ^ e)
           else rne_div (n * 2 ^ (- e)) d in
  mkFloat q e.

(** The double nearest to the rational [n / d] ([0 < d]). *)
Definition round_ratio (n d : Z) : float :=
  if n =? 0 then mkFloat 0 0
  else let f := round_pos (Z.abs n) d in
       mkFloat (Z.sgn n * mant f) (expo f).

(** A rounded value is a double unless its magnitude reached [2 ^ 1024]. *)
Definition is_finite (f : float) : bool :=
  (mant f =? 0) || (Z.log2 (Z.abs (mant f)) + expo f <? emax).

(** [a / b] on two [int]s: the correctly rounded quotient. *)
Definition int_true_div (a b : Z) : result float :=
  if b =? 0 then Raise ZeroDivisionError
  else
    let f := round_ratio (Z.sgn b * a) (Z.abs b) in
    if is_finite f then Ok f else Raise OverflowError.

(** The conversion of an [int] operand of a float operation. *)
Definition of_int (n : Z) : result float :=
  let f := round_ratio n 1 in
  if is_finite f then Ok f else Raise OverflowError.

(** The value of a double as a fraction [num / den]. *)
Definition num (f : float) : Z :=
  if 0 <=? expo f then mant f * 2 ^ expo f else mant f.

Definition den (f : float) : Z :=
  if 0 <=? expo f then 1 else 2 ^ (- expo f).

(** [x * y] on two doubles: the exact product, rounded; [None] is an
    infinity. *)
Definition mul (x y : float) : option float :=
  let f := round_ratio (num x * num y) (den x * den y) in
  if is_finite f then Some f else None.

(** [int(x)]: truncation toward zero; an infinity cannot be converted. *)
Definition to_int (x : option float) : result Z :=
  match x with
  | None => Raise OverflowError
  | Some f => Ok (Z.quot (num f) (den f))
  end.

(** The integer nearest to [10 * f], ties to even, for a double [0 <= f]:
    the digits that [format(f, ".1f")] prints. *)
Definition tenths (f : float) : Z := rne_div (10 * num f) (den f).

End Float.

(** ** Python [str] *)

Definition char : Type := N.
Definition str : Type := list char.

(** An ASCII literal of the source. *)
Definition lit (s : string) : str :=
  map N_of_ascii (list_ascii_of_string s).

(** [str(n)] for an [int]. *)
Definition str_of_int (n : Z) : str :=
  lit (NilZero.string_of_int (Z.to_int n)).

(** The largest magnitude, excluded, of an [int] that [str] and [format]
    convert: [10 ^ 4300] is the first integer of more than 4300 digits. *)
Definition MAX_STR_MAGNITUDE : Z := 10 ^ 4300.

(** [str(n)] and [f"{n}"] for an [int], with the limit on its digits. *)
Definition int_to_str (n : Z) : result str :=
  if Z.abs n <? MAX_STR_MAGNITUDE then Ok (str_of_int n) else Raise ValueError.

(** [n] copies of [s], none when [n <= 0]. *)
Definition str_repeat (s : str) (n : Z) : str :=
  List.concat (repeat s (Z.to_nat n)).

(** [s * n]: the count is converted to the index type, a signed 64-bit
    integer, which fails outside of it. *)
Definition str_mul (s : str) (n : Z) : result str :=
  if (- 2 ^ 63 <=? n) && (n <? 2 ^ 63) then Ok (str_repeat s n)
  else Raise OverflowError.

(** [len(s)]. *)
Definition len (s : str) : Z := Z.of_nat (List.length s).

(** [format(s, "<w")] and [format(s, ">w")]: padding with spaces up to a
    minimal width. *)
Definition ljust (w : Z) (s : str) : str :=
  s ++ str_repeat (lit " ") (w - len s).

Definition rjust (w : Z) (s : str) : str :=
  str_repeat (lit " ") (w - len s) ++ s.

(** [s[:n]] for [0 <= n]. *)
Definition slice_to (n : Z) (s : str) : str := firstn (Z.to_nat n) s.

(** ** The script *)

(** The glyphs of the bar: U+2588 FULL BLOCK and U+2591 LIGHT SHADE. *)
Definition FULL_BLOCK : str := [9608%N].
Definition LIGHT_SHADE : str := [9617%N].

(** [format(x, ".1f")] for a double [0 <= x]: the integer part, a point and
    one digit. *)
Definition format_1f (x : Float.float) : str :=
  let t := Float.tenths x in
  str_of_int (t / 10) ++ lit "." ++ str_of_int (t mod 10).

(** [format_size(kb)], lines 8-12. *)
Definition format_size (kb : Z) : result str :=
  if 1024 <=? kb then
    x <- Float.int_true_div kb 1024 ;;
    Ok (format_1f x ++ lit "MB")
  else
    s <- int_to_str kb ;;
    Ok (s ++ lit "KB").

(** [filled = int(percentage / 100 * width)], line 16. *)
Definition filled_count (percentage width : Z) : result Z :=
  x <- Float.int_true_div percentage 100 ;;
  w <- Float.of_int width ;;
  Float.to_int (Float.mul x w).

(** [draw_bar(percentage, width)], lines 14-17. *)
Definition draw_bar (percentage width : Z) : result str :=
  filled <- filled_count percentage width ;;
  full <- str_mul FULL_BLOCK filled ;;
  light <- str_mul LIGHT_SHADE (width - filled) ;;
  Ok (full ++ light).

(** ** Standard output *)

(** What a run can observe: the text written so far to the standard output,
    and the inputs a process has (arguments, environment, clock), none of
    which the script reads. *)
Record World : Type := mkWorld {
  stdout : str;
  argv : list str;
  environ : list (str * str);
  clock : Z
}.

(** A statement: it ends normally or raises, and leaves a world. *)
Definition io (A : Type) : Type := World -> result A * World.

Definition io_ret {A : Type} (a : A) : io A := fun w => (Ok a, w).

Definition io_bind {A B : Type} (m : io A) (k : A -> io B) : io B :=
  fun w =>
    match m w with
    | (Ok a, w') => k a w'
    | (Raise e, w') => (Raise e, w')
    end.

(** A pure computation that may raise. *)
Definition lift {A : Type} (r : result A) : io A := fun w => (r, w).

Notation "x <~ m ;; k" := (io_bind m (fun x => k))
  (at level 61, m at next level, right associativity).
Notation "m ;; k" := (io_bind m (fun _ => k))
  (at level 61, right associativity).

Definition NEWLINE : str := [10%N].

(** [text] written after what the standard output holds. *)
Definition emit (text : str) (w : World) : World :=
  mkWorld (stdout w ++ text) (argv w) (environ w) (clock w).

(** [print(s)]: the string and a line end, handed to the text stream. *)
Definition print (s : str) : io unit :=
  fun w => (Ok tt, emit (s ++ NEWLINE) w).

(** [for x in xs: body]. *)
Fixpoint for_each {A : Type} (xs : list A) (body : A -> io unit) : io unit :=
  match xs with
  | [] => io_ret tt
  | x :: xs' => body x ;; for_each xs' body
  end.

(** ** The component table, lines 25-38 *)

Record ComponentEntry : Type := mkComponent {
  name : str;
  size_kb : Z;
  percentage : Z;
  description : str
}.

Definition components : list ComponentEntry :=
  [ mkComponent (lit "Nimini Runtime") 450 37
      (lit "Parser, VM, AST, backends, stdlib");
    mkComponent (lit "Feature Bindings") 200 17
      (lit "API exposure to scripts (" ++ lit "*_bindings.nim)");
    mkComponent (lit "Standard Library") 150 12
      (lit "Nim stdlib (strings, tables, algorithms)");
    mkComponent (lit "Core Rendering") 120 10
      (lit "Layout, layers, terminal handling");
    mkComponent (lit "FIGlet System") 80 7
      (lit "Font rendering + embedded data");
    mkComponent (lit "Particle System") 60 5
      (lit "Particle engine + graphs");
    mkComponent (lit "HTTP Client") 44 4
      (lit "Gist loading (optional)");
    mkComponent (lit "Dungeon Gen") 40 3
      (lit "Procedural generation");
    mkComponent (lit "Audio System") 30 2
      (lit "Plugin loader");
    mkComponent (lit "ASCII Art") 30 2
      (lit "Art generators");
    mkComponent (lit "Other") 16 1
      (lit "Miscellaneous") ].

(** ** [main], lines 19-68 *)

Definition BULLET : str := [8226%N].

(** The title line, line 21. *)
Definition title_line : str :=
  lit "TStorie Binary Size Breakdown (1.2 MB total)".

(** The column header, line 40. *)
Definition header_line : str :=
  ljust 20 (lit "Component") ++ lit " " ++ rjust 10 (lit "Size") ++ lit " " ++
  rjust 5 (lit "%") ++ lit "  " ++ ljust 50 (lit "Bar") ++ lit "  " ++
  ljust 30 (lit "Description").

(** The rule under the header, line 41. *)
Definition rule_line : str := str_repeat (lit "-") 135.

(** The largest number of characters of a description that a row shows. *)
Definition DESC_MAX : Z := 50.

(** The width of the bars of the table. *)
Definition BAR_WIDTH : Z := 40.

(** The text of a table row, line 46, from the entry, its bar and its
    formatted size.  The percentage has been through [draw_bar], which
    raises on the percentages of more digits than [format] converts. *)
Definition row_text (c : ComponentEntry) (bar size_str : str) : str :=
  ljust 20 (name c) ++ lit " " ++ rjust 10 size_str ++ lit " " ++
  rjust 4 (str_of_int (percentage c)) ++ lit "%  " ++ bar ++ lit "  " ++
  slice_to DESC_MAX (description c).

(** The body of the loop, lines 43-46. *)
Definition print_row (c : ComponentEntry) : io unit :=
  bar <~ lift (draw_bar (percentage c) BAR_WIDTH) ;;
  size_str <~ lift (format_size (size_kb c)) ;;
  print (row_text c bar size_str).

(** The loop over a table, lines 43-46. *)
Definition print_rows (cs : list ComponentEntry) : io unit :=
  for_each cs print_row.

Definition main : io unit :=
  print (str_repeat (lit "=") 80) ;;
  print title_line ;;
  print (str_repeat (lit "=") 80) ;;
  print [] ;;
  print header_line ;;
  print rule_line ;;
  print_rows components ;;
  print [] ;;
  print (str_repeat (lit "=") 80) ;;
  print (lit "Key Insights:") ;;
  print (str_repeat (lit "=") 80) ;;
  print [] ;;
  print (lit "  " ++ BULLET ++
         lit " Nimini scripting (37%) + Feature bindings (17%) = 54% of binary") ;;
  print (lit "    This provides the flexibility that makes tstorie scriptable") ;;
  print [] ;;
  print (lit "  " ++ BULLET ++ lit " Core rendering engine is only ~120 KB (10%)") ;;
  print (lit "    The 180 KB WASM build proves the core is compact") ;;
  print [] ;;
  print (lit "  " ++ BULLET ++
         lit " Only 44 KB (4%) can be removed with -d:noGistLoading") ;;
  print (lit "    Most modules are interdependent and cannot be easily removed") ;;
  print [] ;;
  print (lit "Optimization Strategy:") ;;
  print [] ;;
  print (lit "  1. Make feature bindings conditional (~200 KB potential savings)") ;;
  print (lit "  2. Make embedded fonts optional (~50 KB savings)") ;;
  print (lit "  3. Consider plugin system for heavy features") ;;
  print (lit "  4. Create minimal/standard/full build variants") ;;
  print [].

(** The text that a statement wrote: what the standard output holds after
    the run, past what it held before. *)
Definition written (w w' : World) : str :=
  skipn (List.length (stdout w)) (stdout w').

(** A run of the script: its outcome and the text it wrote. *)
Definition run_main (w : World) : result unit * str :=
  let (r, w') := main w in (r, written w w').

(** ** Reading the output back *)

(** The lines of a text, each ended by a line end. *)
Fixpoint lines_from (cur : str) (s : str) : list str :=
  match s with
  | [] => match cur with [] => [] | _ => [rev cur] end
  | c :: s' =>
      if N.eqb c 10 then rev cur :: lines_from [] s'
      else lines_from (c :: cur) s'
  end.

Definition lines (s : str) : list str := lines_from [] s.

(** The words of a line: its maximal runs without a space. *)
Fixpoint words_from (cur : str) (s : str) : list str :=
  match s with
  | [] => match cur with [] => [] | _ => [rev cur] end
  | c :: s' =>
      if N.eqb c 32
      then match cur with
           | [] => words_from [] s'
           | _ => rev cur :: words_from [] s'
           end
      else words_from (c :: cur) s'
  end.

Definition words (s : str) : list str := words_from [] s.

Definition str_eqb (a b : str) : bool :=
  if list_eq_dec N.eq_dec a b then true else false.

(** [sub in s]. *)
Fixpoint contains (sub s : str) : bool :=
  str_eqb (firstn (List.length sub) s) sub ||
  match s with
  | [] => false
  | _ :: s' => contains sub s'
  end.

(** The number of occurrences of a character. *)
Definition count_char (c : char) (s : str) : Z :=
  Z.of_nat (List.length (filter (N.eqb c) s)).


(** ** The functions as the specification words them *)

(** The size in kilobytes divided by 1024, to the nearest tenth (a tie goes
    to the even tenth), with the unit, from 1024 on; below, the integer and
    its unit. *)
Definition spec_format_size (kb : Z) : str :=
  if 1024 <=? kb then
    let t := Float.rne_div (10 * kb) 1024 in
    str_of_int (t / 10) ++ lit "." ++ str_of_int (t mod 10) ++ lit "MB"
  else str_of_int kb ++ lit "KB".

(** [floor (p / 100 * w)] filled characters, then empty ones up to [w]. *)
Definition spec_filled (p w : Z) : Z := p * w / 100.

Definition spec_draw_bar (p w : Z) : str :=
  str_repeat FULL_BLOCK (spec_filled p w) ++
  str_repeat LIGHT_SHADE (Z.max 0 (w - spec_filled p w)).

(** ** Binary64 as the Standard Library specifies it *)

Module Binary64.
Import SpecFloat.

(** An integer as an unrounded operand, and as a double. *)
Definition raw (n : Z) : spec_float :=
  match n with
  | Z0 => S754_zero false
  | Zpos p => S754_finite false p 0
  | Zneg p => S754_finite true p 0
  end.

Definition of_int (n : Z) : spec_float := binary_normalize 53 1024 n 0 false.

(** The correctly rounded quotient of two integers. *)
Definition int_true_div (a b : Z) : spec_float :=
  SFdiv 53 1024 (raw a) (raw b).

Definition mul (x y : spec_float) : spec_float := SFmul 53 1024 x y.

(** A double of the model and one of the library have the same value. *)
Definition same_value (f : Float.float) (s : spec_float) : bool :=
  match s with
  | S754_zero _ => Float.mant f =? 0
  | S754_finite sg m e =>
      let k := Z.min (Float.expo f) e in
      Float.mant f * 2 ^ (Float.expo f - k) =?
      (if sg then Z.neg m else Z.pos m) * 2 ^ (e - k)
  | _ => false
  end.

Definition same_result (r : result Float.float) (s : spec_float) : bool :=
  match r, s with
  | Ok f, _ => same_value f s
  | Raise OverflowError, S754_infinity _ => true
  | Raise _, _ => false
  end.

(** The quotient and the product of [draw_bar] agree at [p] and [w]. *)
Definition agree_bar (p w : Z) : bool :=
  same_result (Float.int_true_div p 100) (int_true_div p 100) &&
  match Float.int_true_div p 100, Float.of_int w with
  | Ok x, Ok y =>
      same_value y (of_int w) &&
      match Float.mul x y with
      | Some f => same_value f (mul (int_true_div p 100) (of_int w))
      | None =>
          match mul (int_true_div p 100) (of_int w) with
          | S754_infinity _ => true
          | _ => false
          end
      end
  | _, _ => false
  end.

(** The quotient of [format_size] agrees at [kb]. *)
Definition agree_size (kb : Z) : bool :=
  same_result (Float.int_true_div kb 1024) (int_true_div kb 1024).

End Binary64.

(** The integers [lo], ..., [lo + n - 1]. *)
Definition zrange (lo : Z) (n : nat) : list Z :=
  map (fun i => lo + Z.of_nat i) (seq 0 n).

(** The run that the statements about the report look at. *)
Definition empty_world : World := mkWorld [] [] [] 0.

(** The text of the report. *)
Definition report : str := snd (run_main empty_world).

(** The sums over the table. *)
Definition total_percentage (cs : list ComponentEntry) : Z :=
  fold_right Z.add 0 (map percentage cs).

Definition total_size (cs : list ComponentEntry) : Z :=
  fold_right Z.add 0 (map size_kb cs).

(** A statement that only writes [t] and ends normally. *)
Definition writes (m : io unit) (t : str) : Prop :=
  forall w, m w = (Ok tt, emit t w).

(** An entry with a description of more than 50 characters, which the table
    of the script does not have. *)
Definition long_entry : ComponentEntry :=
  mkComponent (lit "Nimini Runtime") 450 37
    (lit "Parser, virtual machine, syntax tree, backends and the standard library").

(** ** Further notions for the properties of the functions *)

(** The outcome of a further, pure step on a result. *)
Definition result_map {A B : Type} (f : A -> B) (r : result A) : result B :=
  match r with
  | Ok a => Ok (f a)
  | Raise e => Raise e
  end.

(** The opposite of a double. *)
Definition float_opp (f : Float.float) : Float.float :=
  Float.mkFloat (- Float.mant f) (Float.expo f).

(** The text of [t] tenths of a megabyte. *)
Definition render_tenths (t : Z) : str :=
  str_of_int (t / 10) ++ lit "." ++ str_of_int (t mod 10) ++ lit "MB".

(** The first integer whose quotient by [d] is too large for a double: the
    quotient reaches the middle between the largest double,
    [(2 ^ 53 - 1) * 2 ^ 971], and [2 ^ 1024]. *)
Definition overflow_from (d : Z) : Z := (2 ^ 1024 - 2 ^ 970) * d.

(** The row of an entry, when its bar and its size can be formatted. *)
Definition row_line (c : ComponentEntry) : result str :=
  bar <- draw_bar (percentage c) BAR_WIDTH ;;
  size_str <- format_size (size_kb c) ;;
  Ok (row_text c bar size_str).

(** The text of some lines. *)
Definition unlines (ls : list str) : str :=
  List.concat (map (fun l => l ++ NEWLINE) ls).

(** An entry whose size cannot be formatted. *)
Definition huge_entry : ComponentEntry :=
  mkComponent (lit "Debug Symbols") (2 ^ 1034) 50 (lit "Not stripped").

(** The row of [long_entry]. *)
Definition long_entry_row : str :=
  row_text long_entry
    (str_repeat FULL_BLOCK 14 ++ str_repeat LIGHT_SHADE 26) (lit "450KB").

(** ** The bytes of the standard output *)












(** * Properties *)

(** ** Rounding to binary64 *)

Module FloatFacts.
Import Float.

Section Rounding.

Variables a b : Z.
Hypothesis Hb : 0 < b.

Lemma rne_div_lower : a / b <= rne_div a b.
Proof.
  unfold rne_div.
  destruct (2 * (a mod b) ?= b); try lia.
  destruct (Z.even (a / b)); lia.
Qed.

Lemma rne_div_upper : rne_div a b <= a / b + 1.
Proof.
  unfold rne_div.
  destruct (2 * (a mod b) ?= b); try lia.
  destruct (Z.even (a / b)); lia.
Qed.

Lemma rne_div_le (c : Z) : a <= c * b -> rne_div a b <= c.
Proof.
  intros Hle.
  assert (Hq : a / b <= c) by (apply Z.div_le_upper_bound; lia).
  destruct (Z.eq_dec (a / b) c) as [Heq|Hne].
  - unfold rne_div.
    assert (Hm : a mod b = 0).
    { pose proof (Z.mod_pos_bound a b Hb) as Hr.
      pose proof (Z.div_mod a b ltac:(lia)) as Hd. rewrite Heq in Hd. lia. }
    rewrite Hm, Z.mul_0_r.
    destruct (Z.compare_spec 0 b); lia.
  - pose proof rne_div_upper. lia.
Qed.

Lemma rne_div_ge (c : Z) : c * b <= a -> c <= rne_div a b.
Proof.
  intros Hle.
  assert (Hq : c <= a / b) by (apply Z.div_le_lower_bound; lia).
  pose proof rne_div_lower. lia.
Qed.

End Rounding.

Lemma rne_div_exact (c b : Z) : 0 < b -> rne_div (c * b) b = c.
Proof.
  intros Hb.
  apply Z.le_antisymm.
  - apply rne_div_le; lia.
  - apply rne_div_ge; lia.
Qed.

Lemma rne_div_scale (a b c : Z) :
  0 < b -> 0 < c -> rne_div (c * a) (c * b) = rne_div a b.
Proof.
  intros Hb Hc. unfold rne_div.
  rewrite Z.div_mul_cancel_l by lia.
  rewrite Z.mul_mod_distr_l by lia.
  replace (2 * (c * (a mod b))) with (c * (2 * (a mod b))) by ring.
  destruct (Z.compare_spec (2 * (a mod b)) b),
    (Z.compare_spec (c * (2 * (a mod b))) (c * b));
    try reflexivity; exfalso; nia.
Qed.


Lemma den_pos (f : float) : 0 < den f.
Proof.
  unfold den. destruct (0 <=? expo f) eqn:He; [lia|].
  apply Z.leb_gt in He. apply Z.pow_pos_nonneg; lia.
Qed.

Lemma ilog2_ratio_lt (n d K : Z) :
  0 < n -> 0 < d -> 0 <= K -> n < 2 ^ (K + 1) * d -> ilog2_ratio n d <= K.
Proof.
  intros Hn Hd HK Hlt. unfold ilog2_ratio.
  destruct (d <=? n) eqn:Hdn.
  - apply Z.leb_le in Hdn.
    assert (Hq : 0 < n / d) by (apply Z.div_str_pos; lia).
    assert (Hlt' : n / d < 2 ^ (K + 1)).
    { apply Z.div_lt_upper_bound; lia. }
    apply Z.log2_lt_pow2 in Hlt'; lia.
  - pose proof (Z.log2_up_nonneg ((d + n - 1) / n)). lia.
Qed.

Lemma ilog2_ratio_ge_one (n d : Z) :
  0 < d -> d <= n -> ilog2_ratio n d = Z.log2 (n / d).
Proof.
  intros Hd Hdn. unfold ilog2_ratio.
  apply Z.leb_le in Hdn. now rewrite Hdn.
Qed.

Lemma round_pos_mant_nonneg (n d : Z) :
  0 <= n -> 0 < d -> 0 <= mant (round_pos n d).
Proof.
  intros Hn Hd. unfold round_pos. cbn [mant].
  set (e := Z.max _ _).
  destruct (0 <=? e) eqn:He.
  - apply Z.leb_le in He.
    assert (0 < d * 2 ^ e) by (apply Z.mul_pos_pos; [lia|apply Z.pow_pos_nonneg; lia]).
    apply rne_div_ge; lia.
  - apply Z.leb_gt in He.
    assert (0 < 2 ^ (- e)) by (apply Z.pow_pos_nonneg; lia).
    apply rne_div_ge; nia.
Qed.

(** A rounded value does not pass a number of its grid that bounds the
    exact value. *)
Lemma round_pos_le (n d W : Z) :
  0 < n -> 0 < d -> n <= W * d ->
  (expo (round_pos n d) <= 0 \/ exists c, W = c * 2 ^ expo (round_pos n d)) ->
  num (round_pos n d) <= W * den (round_pos n d).
Proof.
  intros Hn Hd Hle Hgrid. unfold num, den.
  unfold round_pos in *. cbn [mant expo] in *.
  set (e := Z.max _ _) in *.
  destruct (0 <=? e) eqn:He.
  - apply Z.leb_le in He.
    assert (Hp : 0 < 2 ^ e) by (apply Z.pow_pos_nonneg; lia).
    assert (Hc : exists c, W = c * 2 ^ e).
    { destruct Hgrid as [Hz|Hc]; [|exact Hc].
      exists W. replace e with 0 by lia. simpl. lia. }
    destruct Hc as [c ->].
    assert (rne_div n (d * 2 ^ e) <= c) by (apply rne_div_le; nia).
    nia.
  - apply Z.leb_gt in He.
    assert (Hp : 0 < 2 ^ (- e)) by (apply Z.pow_pos_nonneg; lia).
    apply rne_div_le; nia.
Qed.

Lemma round_pos_ge (n d W : Z) :
  0 < n -> 0 < d -> W * d <= n ->
  (expo (round_pos n d) <= 0 \/ exists c, W = c * 2 ^ expo (round_pos n d)) ->
  W * den (round_pos n d) <= num (round_pos n d).
Proof.
  intros Hn Hd Hle Hgrid. unfold num, den.
  unfold round_pos in *. cbn [mant expo] in *.
  set (e := Z.max _ _) in *.
  destruct (0 <=? e) eqn:He.
  - apply Z.leb_le in He.
    assert (Hp : 0 < 2 ^ e) by (apply Z.pow_pos_nonneg; lia).
    assert (Hc : exists c, W = c * 2 ^ e).
    { destruct Hgrid as [Hz|Hc]; [|exact Hc].
      exists W. replace e with 0 by lia. simpl. lia. }
    destruct Hc as [c ->].
    assert (c <= rne_div n (d * 2 ^ e)) by (apply rne_div_ge; nia).
    nia.
  - apply Z.leb_gt in He.
    assert (Hp : 0 < 2 ^ (- e)) by (apply Z.pow_pos_nonneg; lia).
    apply rne_div_ge; nia.
Qed.

(** The exponent of a rounded value below [2 ^ (K + 1)]. *)
Lemma round_pos_expo_le (n d K : Z) :
  0 < n -> 0 < d -> 0 <= K -> n < 2 ^ (K + 1) * d ->
  expo (round_pos n d) <= Z.max (K - 52) emin.
Proof.
  intros Hn Hd HK Hlt. unfold round_pos, prec. cbn [expo].
  pose proof (ilog2_ratio_lt n d K Hn Hd HK Hlt). lia.
Qed.


Lemma round_ratio_pos (n d : Z) : 0 < n -> round_ratio n d = round_pos n d.
Proof.
  intros Hn. unfold round_ratio.
  destruct (n =? 0) eqn:Hz; [apply Z.eqb_eq in Hz; lia|].
  rewrite Z.abs_eq, Z.sgn_pos, Z.mul_1_l by lia.
  now destruct (round_pos n d).
Qed.

Lemma round_ratio_zero (d : Z) : round_ratio 0 d = mkFloat 0 0.
Proof. reflexivity. Qed.

Lemma round_ratio_mant_nonneg (n d : Z) :
  0 <= n -> 0 < d -> 0 <= mant (round_ratio n d).
Proof.
  intros Hn Hd. destruct (Z.eq_dec n 0) as [->|Hnz].
  - rewrite round_ratio_zero. simpl. lia.
  - rewrite round_ratio_pos by lia. apply round_pos_mant_nonneg; lia.
Qed.

Lemma num_nonneg (f : float) : 0 <= mant f -> 0 <= num f.
Proof.
  intros Hm. unfold num. destruct (0 <=? expo f) eqn:He; [|lia].
  apply Z.leb_le in He. apply Z.mul_nonneg_nonneg; [lia|].
  apply Z.pow_nonneg; lia.
Qed.

Lemma round_ratio_le_small (n d W : Z) :
  0 <= n -> 0 < d -> n <= W * d -> W < 2 ^ 53 ->
  num (round_ratio n d) <= W * den (round_ratio n d).
Proof.
  intros Hn Hd Hle HW. destruct (Z.eq_dec n 0) as [->|Hnz].
  - rewrite round_ratio_zero. cbn. nia.
  - rewrite round_ratio_pos by lia.
    apply round_pos_le; try lia. left.
    pose proof (round_pos_expo_le n d 52 ltac:(lia) Hd ltac:(lia)) as He.
    unfold emin in He. change (52 + 1) with 53 in He.
    assert (n < 2 ^ 53 * d) by nia. lia.
Qed.

Lemma round_ratio_ge_small (n d W : Z) :
  0 <= n -> 0 < d -> W * d <= n -> n < 2 ^ 53 * d ->
  W * den (round_ratio n d) <= num (round_ratio n d).
Proof.
  intros Hn Hd Hle HW. destruct (Z.eq_dec n 0) as [->|Hnz].
  - rewrite round_ratio_zero. cbn. nia.
  - rewrite round_ratio_pos by lia.
    apply round_pos_ge; try lia. left.
    pose proof (round_pos_expo_le n d 52 ltac:(lia) Hd ltac:(lia)) as He.
    unfold emin in He. change (52 + 1) with 53 in He. lia.
Qed.

Lemma round_ratio_le_pow2 (n d K : Z) :
  0 <= n -> 0 < d -> 0 <= K -> n <= 2 ^ K * d ->
  num (round_ratio n d) <= 2 ^ K * den (round_ratio n d).
Proof.
  intros Hn Hd HK Hle. destruct (Z.eq_dec n 0) as [->|Hnz].
  - rewrite round_ratio_zero. cbn.
    assert (0 < 2 ^ K) by (apply Z.pow_pos_nonneg; lia). lia.
  - rewrite round_ratio_pos by lia.
    assert (Hp : 0 < 2 ^ K) by (apply Z.pow_pos_nonneg; lia).
    assert (Hlt : n < 2 ^ (K + 1) * d).
    { rewrite Z.pow_add_r, Z.pow_1_r by lia. nia. }
    pose proof (round_pos_expo_le n d K ltac:(lia) Hd HK Hlt) as He.
    unfold emin in He.
    apply round_pos_le; try lia.
    destruct (Z_le_gt_dec (expo (round_pos n d)) 0) as [Hz|Hz]; [now left|right].
    exists (2 ^ (K - expo (round_pos n d))).
    rewrite <- Z.pow_add_r by lia. f_equal. lia.
Qed.

(** A value of at most [2 ^ K], [K < 1024], is a double. *)
Lemma is_finite_le (f : float) (K : Z) :
  0 <= mant f -> num f <= 2 ^ K * den f -> 0 <= K < emax ->
  is_finite f = true.
Proof.
  intros Hm Hle HK. unfold is_finite.
  destruct (mant f =? 0) eqn:Hz; [reflexivity|]. apply Z.eqb_neq in Hz.
  cbn [orb]. apply Z.ltb_lt. rewrite Z.abs_eq by lia.
  unfold num, den in Hle.
  destruct (0 <=? expo f) eqn:He.
  - apply Z.leb_le in He.
    assert (Hl : Z.log2 (mant f * 2 ^ expo f) <= K).
    { rewrite <- (Z.log2_pow2 K) by lia. apply Z.log2_le_mono. lia. }
    rewrite Z.log2_mul_pow2 in Hl by lia. lia.
  - apply Z.leb_gt in He.
    rewrite <- Z.pow_add_r in Hle by lia.
    assert (Hl : Z.log2 (mant f) <= K + - expo f).
    { rewrite <- (Z.log2_pow2 (K + - expo f)) by lia. apply Z.log2_le_mono. lia. }
    lia.
Qed.


Lemma round_ratio_le_53 (n d W : Z) :
  0 <= n -> 0 < d -> n <= W * d -> W <= 2 ^ 53 ->
  num (round_ratio n d) <= W * den (round_ratio n d).
Proof.
  intros Hn Hd Hle HW. destruct (Z.eq_dec W (2 ^ 53)) as [->|Hne].
  - apply round_ratio_le_pow2; lia.
  - apply round_ratio_le_small; lia.
Qed.

(** [a / b] for [0 <= a] and [0 < b] is the rounded quotient, unless it
    overflows. *)
Lemma int_true_div_nonneg (a b K : Z) :
  0 <= a -> 0 < b -> a <= 2 ^ K * b -> 0 <= K < emax ->
  int_true_div a b = Ok (round_ratio a b).
Proof.
  intros Ha Hb Hle HK. unfold int_true_div.
  destruct (b =? 0) eqn:Hz; [apply Z.eqb_eq in Hz; lia|].
  rewrite Z.sgn_pos, Z.mul_1_l, Z.abs_eq by lia.
  rewrite (is_finite_le _ K); auto.
  - apply round_ratio_mant_nonneg; lia.
  - apply round_ratio_le_pow2; lia.
Qed.

Lemma of_int_nonneg (n K : Z) :
  0 <= n <= 2 ^ K -> 0 <= K < emax -> of_int n = Ok (round_ratio n 1).
Proof.
  intros Hn HK. unfold of_int.
  rewrite (is_finite_le _ K); auto.
  - apply round_ratio_mant_nonneg; lia.
  - apply round_ratio_le_pow2; lia.
Qed.

(** An [int] up to [2 ^ 53] is converted exactly. *)
Lemma of_int_exact (n : Z) :
  0 <= n <= 2 ^ 53 ->
  of_int n = Ok (round_ratio n 1) /\
  0 <= mant (round_ratio n 1) /\
  num (round_ratio n 1) = n * den (round_ratio n 1).
Proof.
  intros Hn. split; [|split].
  - apply (of_int_nonneg n 53); [lia|unfold emax; lia].
  - apply round_ratio_mant_nonneg; lia.
  - destruct (Z.eq_dec n (2 ^ 53)) as [->|Hne]; [reflexivity|].
    apply Z.le_antisymm.
    + apply round_ratio_le_small; lia.
    + apply round_ratio_ge_small; lia.
Qed.

Lemma mul_nonneg (x y : float) (K : Z) :
  0 <= mant x -> 0 <= mant y ->
  num x * num y <= 2 ^ K * (den x * den y) -> 0 <= K < emax ->
  mul x y = Some (round_ratio (num x * num y) (den x * den y)).
Proof.
  intros Hx Hy Hle HK. unfold mul.
  pose proof (num_nonneg x Hx). pose proof (num_nonneg y Hy).
  pose proof (den_pos x). pose proof (den_pos y).
  rewrite (is_finite_le _ K); auto.
  - apply round_ratio_mant_nonneg; nia.
  - apply round_ratio_le_pow2; nia.
Qed.

Lemma to_int_nonneg (f : float) :
  0 <= mant f -> to_int (Some f) = Ok (num f / den f).
Proof.
  intros Hm. unfold to_int.
  rewrite Z.quot_div_nonneg; [reflexivity|now apply num_nonneg|apply den_pos].
Qed.

End FloatFacts.

Import Float FloatFacts.

(** The quotient [p / 100] of a percentage is at most one. *)
Lemma percentage_quotient (p : Z) :
  0 <= p <= 100 ->
  int_true_div p 100 = Ok (round_ratio p 100) /\
  0 <= mant (round_ratio p 100) /\
  num (round_ratio p 100) <= den (round_ratio p 100).
Proof.
  intros Hp. split; [|split].
  - apply (int_true_div_nonneg p 100 0); [lia|lia|simpl; lia|unfold emax; lia].
  - apply round_ratio_mant_nonneg; lia.
  - rewrite <- (Z.mul_1_l (den _)). apply round_ratio_le_small; lia.
Qed.

(** The filled count of a percentage lies between 0 and the width. *)
Lemma filled_count_range (p w : Z) :
  0 <= p <= 100 -> 0 <= w <= 2 ^ 53 ->
  exists f, filled_count p w = Ok f /\ 0 <= f <= w.
Proof.
  intros Hp Hw. unfold filled_count.
  destruct (percentage_quotient p Hp) as (-> & Hx & Hx1).
  destruct (of_int_exact w Hw) as (-> & Hy & Hy1).
  cbn [bind].
  set (x := round_ratio p 100) in *. set (y := round_ratio w 1) in *.
  pose proof (num_nonneg x Hx) as Hnx. pose proof (den_pos x) as Hdx.
  pose proof (den_pos y) as Hdy.
  assert (Hprod : num x * num y <= w * (den x * den y)) by (rewrite Hy1; nia).
  rewrite (mul_nonneg x y 53); auto; [|nia|unfold emax; lia].
  set (f := round_ratio _ _).
  assert (Hf : 0 <= mant f) by (apply round_ratio_mant_nonneg; nia).
  rewrite to_int_nonneg by exact Hf.
  exists (num f / den f). split; [reflexivity|].
  pose proof (num_nonneg f Hf). pose proof (den_pos f).
  split.
  - apply Z.div_pos; lia.
  - apply Z.div_le_upper_bound; [lia|].
    rewrite Z.mul_comm. apply round_ratio_le_53; nia.
Qed.

(** ** The quotients and products of the script *)

(** The quotient [kb / 1024] is exact below [2 ^ 53]. *)
Lemma size_quotient_exact (kb : Z) :
  1024 <= kb < 2 ^ 53 ->
  int_true_div kb 1024 = Ok (round_ratio kb 1024) /\
  tenths (round_ratio kb 1024) = rne_div (10 * kb) 1024.
Proof.
  intros Hkb. split.
  - apply (int_true_div_nonneg kb 1024 53); [lia|lia|lia|unfold emax; lia].
  - rewrite round_ratio_pos by lia.
    unfold tenths, num, den, round_pos, prec, emin. cbn [mant expo].
    rewrite ilog2_ratio_ge_one by lia.
    assert (Hq : 1 <= kb / 1024 < 2 ^ 43).
    { split.
      - apply Z.div_le_lower_bound; lia.
      - apply Z.div_lt_upper_bound; lia. }
    pose proof (Z.log2_nonneg (kb / 1024)) as Hk0.
    assert (Hk1 : Z.log2 (kb / 1024) < 43) by (apply Z.log2_lt_pow2; lia).
    set (k := Z.log2 (kb / 1024)) in *.
    replace (Z.max (k - (53 - 1)) (-1074)) with (k - 52) by lia.
    destruct (0 <=? k - 52) eqn:He; [apply Z.leb_le in He; lia|].
    replace (- (k - 52)) with ((42 - k) + 10) by lia.
    rewrite Z.pow_add_r by lia. change (2 ^ 10) with 1024.
    assert (Hp : 0 < 2 ^ (42 - k)) by (apply Z.pow_pos_nonneg; lia).
    replace (kb * (2 ^ (42 - k) * 1024)) with (kb * 2 ^ (42 - k) * 1024) by ring.
    rewrite rne_div_exact by lia.
    replace (10 * (kb * 2 ^ (42 - k))) with (2 ^ (42 - k) * (10 * kb)) by ring.
    apply rne_div_scale; lia.
Qed.

(** The integers of the script are far from the limit on the digits. *)
Lemma max_str_magnitude_large : 2 ^ 1034 < MAX_STR_MAGNITUDE.
Proof. vm_compute. reflexivity. Qed.

Lemma int_to_str_defined (n : Z) :
  Z.abs n < MAX_STR_MAGNITUDE -> int_to_str n = Ok (str_of_int n).
Proof.
  intros Hn. unfold int_to_str. apply Z.ltb_lt in Hn. now rewrite Hn.
Qed.

Lemma format_size_exact (kb : Z) :
  0 <= kb < 2 ^ 53 -> format_size kb = Ok (spec_format_size kb).
Proof.
  intros Hkb. unfold format_size, spec_format_size.
  pose proof max_str_magnitude_large as Hmax.
  destruct (1024 <=? kb) eqn:Hc.
  2:{ apply Z.leb_gt in Hc. rewrite int_to_str_defined by lia. reflexivity. }
  apply Z.leb_le in Hc.
  destruct (size_quotient_exact kb ltac:(lia)) as [-> Ht].
  cbn [bind]. unfold format_1f. rewrite Ht.
  now rewrite <- !app_assoc.
Qed.

(** A value of at least one is rounded to at least any integer, up to
    [2 ^ 53], that it reaches. *)
Lemma round_pos_ge_int (n d W : Z) :
  0 < d -> d <= n -> W * d <= n -> 0 <= W <= 2 ^ 53 ->
  W * den (round_pos n d) <= num (round_pos n d).
Proof.
  intros Hd Hdn Hle HW.
  assert (Hexp : expo (round_pos n d) = Z.log2 (n / d) - 52).
  { unfold round_pos, prec, emin. cbn [expo].
    rewrite ilog2_ratio_ge_one by lia.
    pose proof (Z.log2_nonneg (n / d)). lia. }
  destruct (Z_le_gt_dec (expo (round_pos n d)) 0) as [Hz|Hz].
  - apply round_pos_ge; [lia|lia|lia|now left].
  - set (k := Z.log2 (n / d)) in *.
    assert (Hq : 0 < n / d) by (apply Z.div_str_pos; lia).
    assert (Hk : 2 ^ k * d <= n).
    { pose proof (Z.log2_spec (n / d) Hq) as [Hlo _]. fold k in Hlo.
      pose proof (Z.mul_div_le n d Hd). nia. }
    assert (Hg : 2 ^ k * den (round_pos n d) <= num (round_pos n d)).
    { apply round_pos_ge; [lia|lia|lia|]. right. exists (2 ^ 52).
      rewrite Hexp, <- Z.pow_add_r by lia. f_equal. lia. }
    assert (Hkk : 2 ^ 53 <= 2 ^ k) by (apply Z.pow_le_mono_r; lia).
    pose proof (den_pos (round_pos n d)). nia.
Qed.

(** From 100 percent on, the filled count is at least the width. *)
Lemma filled_count_overflowing (p w : Z) :
  100 <= p <= 2 ^ 970 -> 0 <= w <= 2 ^ 53 ->
  exists f, filled_count p w = Ok f /\ w <= f.
Proof.
  intros Hp Hw. unfold filled_count.
  rewrite (int_true_div_nonneg p 100 970) by (unfold emax; lia).
  destruct (of_int_exact w Hw) as (-> & Hy & Hy1).
  cbn [bind].
  assert (Hx : 0 <= mant (round_ratio p 100)) by (apply round_ratio_mant_nonneg; lia).
  assert (Hx1 : den (round_ratio p 100) <= num (round_ratio p 100)).
  { rewrite round_ratio_pos by lia.
    rewrite <- (Z.mul_1_l (den _)). apply round_pos_ge_int; lia. }
  assert (Hx2 : num (round_ratio p 100) <= 2 ^ 970 * den (round_ratio p 100)).
  { apply round_ratio_le_pow2; lia. }
  set (x := round_ratio p 100) in *. set (y := round_ratio w 1) in *.
  pose proof (den_pos x) as Hdx. pose proof (den_pos y) as Hdy.
  assert (Hw53 : w * den y <= 2 ^ 53 * den y) by nia.
  assert (Hprod : num x * num y <= 2 ^ 1023 * (den x * den y)).
  { rewrite Hy1. change (2 ^ 1023) with (2 ^ 970 * 2 ^ 53).
    transitivity (2 ^ 970 * den x * (2 ^ 53 * den y)); [|lia].
    apply Z.mul_le_mono_nonneg; nia. }
  rewrite (mul_nonneg x y 1023); auto; [|unfold emax; lia].
  set (f := round_ratio _ _).
  assert (Hf : 0 <= mant f) by (apply round_ratio_mant_nonneg; nia).
  rewrite to_int_nonneg by exact Hf.
  exists (num f / den f). split; [reflexivity|].
  pose proof (den_pos f).
  apply Z.div_le_lower_bound; [lia|]. rewrite Z.mul_comm.
  destruct (Z.eq_dec w 0) as [->|Hw0].
  - pose proof (num_nonneg f Hf). lia.
  - unfold f. rewrite round_ratio_pos by nia.
    apply round_pos_ge_int; try nia.
Qed.

(** The error of [rne_div] is at most one half. *)
Lemma rne_div_error (a b : Z) :
  0 < b ->
  2 * (rne_div a b * b) <= 2 * a + b /\ 2 * a <= 2 * (rne_div a b * b) + b.
Proof.
  intros Hb. unfold rne_div.
  pose proof (Z.div_mod a b ltac:(lia)) as Hd.
  pose proof (Z.mod_pos_bound a b Hb) as Hr.
  destruct (Z.compare_spec (2 * (a mod b)) b) as [He|Hl|Hg];
    [destruct (Z.even (a / b))| |]; nia.
Qed.

(** [2 ^ ilog2_ratio n d <= n / d]. *)
Lemma ilog2_ratio_spec (n d : Z) :
  0 < n -> 0 < d ->
  (0 <= ilog2_ratio n d /\ 2 ^ ilog2_ratio n d * d <= n) \/
  (ilog2_ratio n d < 0 /\ d <= n * 2 ^ (- ilog2_ratio n d)).
Proof.
  intros Hn Hd. unfold ilog2_ratio.
  destruct (d <=? n) eqn:Hdn.
  - left. apply Z.leb_le in Hdn.
    assert (Hq : 0 < n / d) by (apply Z.div_str_pos; lia).
    pose proof (Z.log2_spec (n / d) Hq) as [Hlo _].
    pose proof (Z.mul_div_le n d Hd).
    split; [apply Z.log2_nonneg|nia].
  - apply Z.leb_gt in Hdn.
    set (c := (d + n - 1) / n).
    assert (Hc : 1 < c).
    { assert (2 <= c); [|lia]. unfold c. apply Z.div_le_lower_bound; lia. }
    assert (Hcn : d <= n * c).
    { unfold c. pose proof (Z.div_mod (d + n - 1) n ltac:(lia)).
      pose proof (Z.mod_pos_bound (d + n - 1) n Hn). lia. }
    pose proof (Z.log2_up_spec c Hc) as [_ Hup].
    pose proof (Z.log2_up_pos c Hc) as Hpos.
    right. split; [lia|]. rewrite Z.opp_involutive. nia.
Qed.

Lemma ilog2_ratio_ge (n d j : Z) :
  0 < n -> 0 < d -> 0 <= j -> d <= n * 2 ^ j -> - j <= ilog2_ratio n d.
Proof.
  intros Hn Hd Hj Hle. unfold ilog2_ratio.
  destruct (d <=? n) eqn:Hdn.
  - pose proof (Z.log2_nonneg (n / d)). lia.
  - apply Z.leb_gt in Hdn.
    assert (Hp : 0 < 2 ^ j) by (apply Z.pow_pos_nonneg; lia).
    assert (Hc : (d + n - 1) / n <= 2 ^ j).
    { apply Z.lt_succ_r. apply Z.div_lt_upper_bound; nia. }
    assert (Hc0 : 0 < (d + n - 1) / n) by (apply Z.div_str_pos; lia).
    apply Z.log2_up_le_pow2 in Hc; lia.
Qed.

(** A value in the normal range is rounded with a relative error of at most
    [2 ^ -53]. *)
Lemma round_pos_relative (n d : Z) :
  0 < n -> 0 < d -> emin + 52 <= ilog2_ratio n d ->
  (2 ^ 53 - 1) * (n * den (round_pos n d)) <= 2 ^ 53 * (num (round_pos n d) * d) /\
  2 ^ 53 * (num (round_pos n d) * d) <= (2 ^ 53 + 1) * (n * den (round_pos n d)).
Proof.
  intros Hn Hd Hnorm. unfold num, den, round_pos, prec. cbn [mant expo].
  pose proof (ilog2_ratio_spec n d Hn Hd) as Hspec.
  set (k := ilog2_ratio n d) in *.
  replace (Z.max (k - (53 - 1)) emin) with (k - 52) by lia.
  change (2 ^ 53) with (2 * 2 ^ 52).
  destruct (0 <=? k - 52) eqn:He.
  - apply Z.leb_le in He.
    destruct Hspec as [[_ Hk]|[Hk _]]; [|lia].
    replace k with (52 + (k - 52)) in Hk by lia.
    rewrite Z.pow_add_r in Hk by lia.
    assert (Hp : 0 < 2 ^ (k - 52)) by (apply Z.pow_pos_nonneg; lia).
    set (pe := 2 ^ (k - 52)) in *.
    pose proof (rne_div_error n (d * pe) ltac:(nia)) as [Hu Hl].
    set (q := rne_div n (d * pe)) in *. nia.
  - apply Z.leb_gt in He.
    assert (Hp : 0 < 2 ^ (- (k - 52))) by (apply Z.pow_pos_nonneg; lia).
    assert (Hbig : 2 ^ 52 * d <= n * 2 ^ (- (k - 52))).
    { destruct Hspec as [[Hk0 Hk]|[Hk0 Hk]].
      - replace 52 with (k + - (k - 52)) at 1 by lia.
        rewrite Z.pow_add_r by lia. nia.
      - replace (- (k - 52)) with (52 + - k) by lia.
        rewrite Z.pow_add_r by lia. nia. }
    set (pe := 2 ^ (- (k - 52))) in *.
    pose proof (rne_div_error (n * pe) d Hd) as [Hu Hl].
    set (q := rne_div (n * pe) d) in *. nia.
Qed.

(** Two relative errors in a row: the bounds of [x] around [p / 100], and of
    a rounded product around [x * w], bound the product around
    [p * w / 100]. *)
Lemma two_roundings_upper (M p w P Q F G D : Z) :
  0 < M -> 0 < Q -> 0 < D -> 0 <= w -> 0 <= G ->
  M * (P * 100) <= (M + 1) * (p * Q) ->
  M * (F * (Q * D)) <= (M + 1) * (P * (w * D) * G) ->
  100 * (M * M) * F <= (M + 1) * (M + 1) * (p * w) * G.
Proof.
  intros HM HQ HD Hw HG Hx Hf.
  assert (Hf' : M * (F * Q) <= (M + 1) * (P * w * G)).
  { apply (Z.mul_le_mono_pos_r _ _ D HD).
    replace (M * (F * Q) * D) with (M * (F * (Q * D))) by ring.
    replace ((M + 1) * (P * w * G) * D) with ((M + 1) * (P * (w * D) * G)) by ring.
    exact Hf. }
  apply (Z.mul_le_mono_pos_r _ _ Q HQ).
  transitivity ((M + 1) * (P * w * G) * (100 * M)).
  - replace (100 * (M * M) * F * Q) with (M * (F * Q) * (100 * M)) by ring.
    apply Z.mul_le_mono_nonneg_r; lia.
  - replace ((M + 1) * (P * w * G) * (100 * M))
      with (M * (P * 100) * ((M + 1) * (w * G))) by ring.
    replace ((M + 1) * (M + 1) * (p * w) * G * Q)
      with ((M + 1) * (p * Q) * ((M + 1) * (w * G))) by ring.
    apply Z.mul_le_mono_nonneg_r; [|exact Hx].
    apply Z.mul_nonneg_nonneg; [lia|apply Z.mul_nonneg_nonneg; lia].
Qed.

Lemma two_roundings_lower (M p w P Q F G D : Z) :
  1 <= M -> 0 < Q -> 0 < D -> 0 <= w -> 0 <= G ->
  (M - 1) * (p * Q) <= M * (P * 100) ->
  (M - 1) * (P * (w * D) * G) <= M * (F * (Q * D)) ->
  (M - 1) * (M - 1) * (p * w) * G <= 100 * (M * M) * F.
Proof.
  intros HM HQ HD Hw HG Hx Hf.
  assert (Hf' : (M - 1) * (P * w * G) <= M * (F * Q)).
  { apply (Z.mul_le_mono_pos_r _ _ D HD).
    replace (M * (F * Q) * D) with (M * (F * (Q * D))) by ring.
    replace ((M - 1) * (P * w * G) * D) with ((M - 1) * (P * (w * D) * G)) by ring.
    exact Hf. }
  apply (Z.mul_le_mono_pos_r _ _ Q HQ).
  transitivity ((M - 1) * (P * w * G) * (100 * M)).
  - replace ((M - 1) * (M - 1) * (p * w) * G * Q)
      with ((M - 1) * (p * Q) * ((M - 1) * (w * G))) by ring.
    replace ((M - 1) * (P * w * G) * (100 * M))
      with (M * (P * 100) * ((M - 1) * (w * G))) by ring.
    apply Z.mul_le_mono_nonneg_r; [|exact Hx].
    apply Z.mul_nonneg_nonneg; [lia|apply Z.mul_nonneg_nonneg; lia].
  - replace (100 * (M * M) * F * Q) with (M * (F * Q) * (100 * M)) by ring.
    apply Z.mul_le_mono_nonneg_r; lia.
Qed.

(** The filled count is the floor of [p * w / 100], or one less when
    [p * w / 100] is an integer. *)
Lemma filled_count_near_floor (p w : Z) :
  0 <= p -> 0 <= w <= 2 ^ 53 -> p * w < 100 * 2 ^ 45 -> p <= 100 * 2 ^ 45 ->
  exists f : Z,
    filled_count p w = Ok f /\
    spec_filled p w - 1 <= f <= spec_filled p w /\
    ((p * w) mod 100 <> 0 -> f = spec_filled p w).
Proof.
  intros Hp Hw Hpw Hp45. unfold filled_count.
  rewrite (int_true_div_nonneg p 100 45) by (unfold emax; lia).
  destruct (of_int_exact w Hw) as (-> & Hy & Hy1).
  cbn [bind].
  assert (Hx : 0 <= mant (round_ratio p 100)) by (apply round_ratio_mant_nonneg; lia).
  assert (Hx45 : num (round_ratio p 100) <= 2 ^ 45 * den (round_ratio p 100))
    by (apply round_ratio_le_pow2; lia).
  pose proof (den_pos (round_ratio p 100)) as HQ.
  pose proof (den_pos (round_ratio w 1)) as HD.
  pose proof (num_nonneg _ Hx) as HP.
  assert (Hprod : num (round_ratio p 100) * num (round_ratio w 1) <=
                  2 ^ 98 * (den (round_ratio p 100) * den (round_ratio w 1))).
  { rewrite Hy1. change (2 ^ 98) with (2 ^ 45 * 2 ^ 53).
    transitivity (2 ^ 45 * den (round_ratio p 100) *
                  (2 ^ 53 * den (round_ratio w 1))); [|lia].
    apply Z.mul_le_mono_nonneg; nia. }
  rewrite (mul_nonneg _ _ 98) by (auto; unfold emax; lia).
  set (f := round_ratio _ _).
  assert (Hf : 0 <= mant f) by (apply round_ratio_mant_nonneg; nia).
  rewrite to_int_nonneg by exact Hf.
  exists (num f / den f). split; [reflexivity|].
  pose proof (den_pos f) as HG. pose proof (num_nonneg f Hf) as HF.
  unfold spec_filled.
  destruct (Z.eq_dec (p * w) 0) as [Hz|Hnz].
  - (* a zero product *)
    assert (Hn0 : num (round_ratio p 100) * num (round_ratio w 1) = 0).
    { destruct (Z.eq_dec p 0) as [->|Hp0]; [reflexivity|].
      assert (w = 0) by nia. subst w. rewrite Hy1. lia. }
    unfold f. rewrite Hn0, Hz. cbn. lia.
  - assert (Hp1 : 1 <= p) by nia. assert (Hw1 : 1 <= w) by nia.
    (* the quotient *)
    assert (Hxn : emin + 52 <= ilog2_ratio p 100).
    { pose proof (ilog2_ratio_ge p 100 7 ltac:(lia) ltac:(lia) ltac:(lia)
                    ltac:(simpl; lia)). unfold emin. lia. }
    pose proof (round_pos_relative p 100 ltac:(lia) ltac:(lia) Hxn) as [Hxl Hxu].
    rewrite <- (round_ratio_pos p 100) in Hxl, Hxu by lia.
    set (x := round_ratio p 100) in *. set (y := round_ratio w 1) in *.
    assert (HPpos : 0 < num x) by nia.
    assert (HQP : den x <= 128 * num x) by nia.
    (* the product *)
    assert (Hn' : 0 < num x * num y) by (rewrite Hy1; nia).
    assert (Hd' : 0 < den x * den y) by nia.
    assert (Hfn : emin + 52 <= ilog2_ratio (num x * num y) (den x * den y)).
    { pose proof (ilog2_ratio_ge (num x * num y) (den x * den y) 7
                    Hn' Hd' ltac:(lia)) as Hg.
      unfold emin. rewrite Hy1 in Hg |- *.
      assert (den x * den y <= num x * (w * den y) * 2 ^ 7); [|lia].
      change (2 ^ 7) with 128.
      transitivity (128 * num x * den y); [nia|].
      assert (num x * den y <= num x * (w * den y)) by nia. lia. }
    pose proof (round_pos_relative _ _ Hn' Hd' Hfn) as [Hfl Hfu].
    rewrite <- round_ratio_pos in Hfl, Hfu by exact Hn'.
    fold f in Hfl, Hfu. rewrite Hy1 in Hfl, Hfu.
    pose proof (two_roundings_upper (2 ^ 53) p w (num x) (den x) (num f) (den f)
                  (den y) ltac:(lia) HQ HD ltac:(lia) ltac:(lia) Hxu Hfu) as HU.
    pose proof (two_roundings_lower (2 ^ 53) p w (num x) (den x) (num f) (den f)
                  (den y) ltac:(lia) HQ HD ltac:(lia) ltac:(lia) Hxl Hfl) as HL.
    pose proof (Z.div_mod (p * w) 100 ltac:(lia)) as Hdm.
    pose proof (Z.mod_pos_bound (p * w) 100 ltac:(lia)) as Hr.
    set (N := p * w / 100) in *. set (r := (p * w) mod 100) in *.
    assert (HN : 0 <= N < 2 ^ 45) by lia.
    rewrite Hdm in HU, HL.
    set (F := num f) in *. set (G := den f) in *.
    assert (Hup : F < (N + 1) * G).
    { assert (Hk : (2 ^ 53 + 1) * (2 ^ 53 + 1) * (100 * N + r) <
                   100 * (2 ^ 53 * 2 ^ 53) * (N + 1)) by lia.
      apply (Z.mul_lt_mono_pos_r G) in Hk; [|exact HG].
      apply (Z.mul_lt_mono_pos_l (100 * (2 ^ 53 * 2 ^ 53))); [lia|]. lia. }
    assert (Hlow : (N - 1) * G <= F).
    { assert (Hk : 100 * (2 ^ 53 * 2 ^ 53) * (N - 1) <=
                   (2 ^ 53 - 1) * (2 ^ 53 - 1) * (100 * N + r)) by lia.
      apply (Z.mul_le_mono_nonneg_r _ _ G) in Hk; [|lia].
      apply (Z.mul_le_mono_pos_l _ _ (100 * (2 ^ 53 * 2 ^ 53))); [lia|]. lia. }
    split; [split|].
    + apply Z.div_le_lower_bound; lia.
    + apply Z.lt_succ_r. apply Z.div_lt_upper_bound; lia.
    + intros Hr0. apply Z.le_antisymm.
      * apply Z.lt_succ_r. apply Z.div_lt_upper_bound; lia.
      * apply Z.div_le_lower_bound; [lia|].
        assert (Hk : 100 * (2 ^ 53 * 2 ^ 53) * N <=
                     (2 ^ 53 - 1) * (2 ^ 53 - 1) * (100 * N + r)) by lia.
        apply (Z.mul_le_mono_nonneg_r _ _ G) in Hk; [|lia].
        rewrite (Z.mul_comm G N).
        apply (Z.mul_le_mono_pos_l _ _ (100 * (2 ^ 53 * 2 ^ 53))); [lia|]. lia.
Qed.

(** ** Strings *)

Lemma length_str_repeat_char (c : char) (n : Z) :
  List.length (str_repeat [c] n) = Z.to_nat n.
Proof.
  unfold str_repeat. induction (Z.to_nat n) as [|k IH]; simpl; congruence.
Qed.

Lemma len_str_repeat_char (c : char) (n : Z) :
  len (str_repeat [c] n) = Z.max 0 n.
Proof. unfold len. rewrite length_str_repeat_char. lia. Qed.

Lemma len_app (s t : str) : len (s ++ t) = len s + len t.
Proof. unfold len. rewrite length_app. lia. Qed.

Lemma str_repeat_nonpos (s : str) (n : Z) : n <= 0 -> str_repeat s n = [].
Proof.
  intros Hn. unfold str_repeat. now replace (Z.to_nat n) with 0%nat by lia.
Qed.

Lemma slice_to_short (n : Z) (s : str) : len s <= n -> slice_to n s = s.
Proof.
  intros Hn. unfold slice_to, len in *. apply firstn_all2. lia.
Qed.

Lemma len_slice_to_long (n : Z) (s : str) :
  0 <= n -> n < len s -> len (slice_to n s) = n.
Proof.
  intros Hn Hlt. unfold slice_to, len in *. rewrite length_firstn. lia.
Qed.

(** ** Ranges *)

Lemma zrange_forallb (P : Z -> bool) (lo : Z) (n : nat) :
  forallb P (zrange lo n) = true ->
  forall z, lo <= z < lo + Z.of_nat n -> P z = true.
Proof.
  intros Hall z Hz. rewrite forallb_forall in Hall. apply Hall.
  unfold zrange. apply in_map_iff. exists (Z.to_nat (z - lo)). split.
  - lia.
  - apply in_seq. lia.
Qed.

(** ** Standard output *)

Lemma emit_emit (s t : str) (w : World) : emit t (emit s w) = emit (s ++ t) w.
Proof. unfold emit. simpl. now rewrite app_assoc. Qed.


Lemma writes_ret : writes (io_ret tt) [].
Proof. intros [o a e c]. unfold io_ret, emit. simpl. now rewrite app_nil_r. Qed.

Lemma writes_seq (m k : io unit) (s t : str) :
  writes m s -> writes k t -> writes (m ;; k) (s ++ t).
Proof.
  intros Hm Hk w. unfold io_bind. rewrite Hm, Hk. now rewrite emit_emit.
Qed.

Lemma writes_row (c : ComponentEntry) (bar size_str : str) :
  draw_bar (percentage c) BAR_WIDTH = Ok bar ->
  format_size (size_kb c) = Ok size_str ->
  writes (print_row c) (row_text c bar size_str ++ NEWLINE).
Proof.
  intros Hbar Hsize w. unfold print_row, io_bind, lift.
  now rewrite Hbar, Hsize.
Qed.






(** ** The model of binary64 and the Standard Library's *)

(** The quotients and products of [draw_bar] for the percentages 0..130 and
    the widths 0..50, and the quotients of [format_size] for the sizes
    0..2999 and for sizes around the first inexact quotient and around the
    overflow, have the values that [SpecFloat] gives. *)
Lemma binary64_agreement :
  forallb (fun p => forallb (Binary64.agree_bar p) (zrange 0 51)) (zrange 0 131)
  && forallb Binary64.agree_size (zrange 0 3000)
  && forallb Binary64.agree_size (zrange (2 ^ 53 - 100) 200)
  && forallb Binary64.agree_size (zrange (2 ^ 1034 - 2 ^ 980 - 100) 200) = true.
Proof. vm_compute. reflexivity. Qed.

(** ** [format_size] *)

(** C2, as amended: for every integer number of kilobytes [kb] with
    [0 <= kb < 2 ^ 53], [format_size] returns, when [1024 <= kb], [kb / 1024]
    to the nearest tenth (ties to even) with exactly one fractional digit and
    the unit "MB", and otherwise the integer and the unit "KB"; in particular
    [format_size(450) = "450KB"], [format_size(1024) = "1.0MB"],
    [format_size(1536) = "1.5MB"] and [format_size(0) = "0KB"]. *)
Theorem format_size_spec :
  (forall kb : Z, 0 <= kb < 2 ^ 53 ->
     format_size kb = Ok (spec_format_size kb)) /\
  format_size 450 = Ok (lit "450KB") /\
  format_size 1024 = Ok (lit "1.0MB") /\
  format_size 1536 = Ok (lit "1.5MB") /\
  format_size 0 = Ok (lit "0KB").
Proof.
  split; [exact format_size_exact|].
  repeat split; vm_compute; reflexivity.
Qed.

Lemma format_size_spec_witness :
  0 <= 1220 < 2 ^ 53 /\ format_size 1220 = Ok (spec_format_size 1220).
Proof.
  split; [lia|]. apply (proj1 format_size_spec 1220). lia.
Defined.

(** C2, as stated, fails: the size [2 ^ 1034] is a non-negative number of
    kilobytes, and its quotient by 1024 is too large for a double, so
    [format_size] raises [OverflowError] and returns no string. *)
Lemma format_size_overflow :
  0 <= 2 ^ 1034 /\ format_size (2 ^ 1034) = Raise OverflowError /\
  format_size (2 ^ 1034) <> Ok (spec_format_size (2 ^ 1034)).
Proof.
  split; [apply Z.pow_nonneg; lia|].
  assert (H : format_size (2 ^ 1034) = Raise OverflowError)
    by (vm_compute; reflexivity).
  split; [exact H|]. rewrite H. discriminate.
Qed.

(** From [2 ^ 53] on the quotient is rounded to a double before it is
    printed, and the digit can differ from the nearest tenth of
    [kb / 1024]: [(2 ^ 53 + 51) / 1024 = 8796093022208.0498...] is printed
    as "8796093022208.1MB". *)
Lemma format_size_rounds_twice :
  format_size (2 ^ 53 + 51) = Ok (lit "8796093022208.1MB") /\
  spec_format_size (2 ^ 53 + 51) = lit "8796093022208.0MB".
Proof. split; vm_compute; reflexivity. Qed.

(** ** [draw_bar] *)

Lemma str_mul_defined (s : str) (n : Z) :
  - 2 ^ 63 <= n < 2 ^ 63 -> str_mul s n = Ok (str_repeat s n).
Proof.
  intros [Hlo Hhi]. unfold str_mul.
  apply Z.leb_le in Hlo. apply Z.ltb_lt in Hhi. now rewrite Hlo, Hhi.
Qed.

Lemma draw_bar_of_count (p w f : Z) :
  filled_count p w = Ok f ->
  - 2 ^ 63 <= f < 2 ^ 63 -> - 2 ^ 63 <= w - f < 2 ^ 63 ->
  draw_bar p w =
    Ok (str_repeat FULL_BLOCK f ++ str_repeat LIGHT_SHADE (w - f)).
Proof.
  intros H Hf Hwf. unfold draw_bar. rewrite H. cbn [bind].
  now rewrite !str_mul_defined by assumption.
Qed.

Lemma len_bar (f e : Z) :
  len (str_repeat FULL_BLOCK f ++ str_repeat LIGHT_SHADE e) =
  Z.max 0 f + Z.max 0 e.
Proof.
  unfold FULL_BLOCK, LIGHT_SHADE.
  now rewrite len_app, !len_str_repeat_char.
Qed.

Lemma filled_count_width_40 (p : Z) :
  0 <= p <= 100 -> filled_count p 40 = Ok (spec_filled p 40).
Proof.
  intros Hp.
  assert (Hall : forallb
            (fun p => match filled_count p 40 with
                      | Ok f => f =? spec_filled p 40
                      | Raise _ => false
                      end) (zrange 0 101) = true)
    by (vm_compute; reflexivity).
  pose proof (zrange_forallb _ 0 101 Hall p ltac:(lia)) as H.
  cbv beta in H. destruct (filled_count p 40) as [f|e]; [|discriminate].
  apply Z.eqb_eq in H. now subst.
Qed.

(** C3, as amended: for every percentage [0 <= p <= 100] and every width
    [1 <= w <= 2 ^ 53], [draw_bar(p, w)] returns a string of exactly [w]
    characters: [f] filled glyphs followed by [w - f] empty ones, where
    [f = int(p / 100 * w)], with [0 <= f <= w], is the truncation (not the
    rounding) of the product computed in binary64.  For [w < 2 ^ 45], [f] is
    [floor(p * w / 100)], except that it can be one less when [p * w] is a
    multiple of 100; at width 40, the width of the report, it is
    [floor(p * 40 / 100)] for every such [p].  In particular
    [draw_bar(37, 40)] has exactly 14 filled and 26 empty characters,
    [draw_bar(0, 40)] is 40 empty characters and [draw_bar(100, 40)] is 40
    filled characters. *)
Theorem draw_bar_within_width :
  (forall p w : Z, 0 <= p <= 100 -> 1 <= w <= 2 ^ 53 ->
     exists f : Z,
       filled_count p w = Ok f /\ 0 <= f <= w /\
       draw_bar p w =
         Ok (str_repeat FULL_BLOCK f ++ str_repeat LIGHT_SHADE (w - f)) /\
       len (str_repeat FULL_BLOCK f ++ str_repeat LIGHT_SHADE (w - f)) = w /\
       len (str_repeat FULL_BLOCK f) = f /\
       len (str_repeat LIGHT_SHADE (w - f)) = w - f /\
       (w < 2 ^ 45 ->
        spec_filled p w - 1 <= f <= spec_filled p w /\
        ((p * w) mod 100 <> 0 -> f = spec_filled p w))) /\
  (forall p : Z, 0 <= p <= 100 ->
     draw_bar p 40 = Ok (spec_draw_bar p 40)) /\
  draw_bar 37 40 =
    Ok (str_repeat FULL_BLOCK 14 ++ str_repeat LIGHT_SHADE 26) /\
  draw_bar 0 40 = Ok (str_repeat LIGHT_SHADE 40) /\
  draw_bar 100 40 = Ok (str_repeat FULL_BLOCK 40).
Proof.
  split; [|split].
  - intros p w Hp Hw.
    destruct (filled_count_range p w Hp ltac:(lia)) as (f & Hf & Hr).
    exists f. split; [exact Hf|]. split; [exact Hr|].
    split; [apply draw_bar_of_count; [exact Hf|lia|lia]|].
    rewrite len_bar. unfold FULL_BLOCK, LIGHT_SHADE.
    rewrite !len_str_repeat_char.
    split; [lia|]. split; [lia|]. split; [lia|].
    intros Hw45.
    assert (Hpw : p * w <= 100 * w) by (apply Z.mul_le_mono_nonneg_r; lia).
    destruct (filled_count_near_floor p w) as (f' & Hf' & Hnear); try lia.
    rewrite Hf in Hf'. injection Hf' as <-. exact Hnear.
  - intros p Hp.
    assert (0 <= spec_filled p 40 <= 40).
    { unfold spec_filled. split.
      - apply Z.div_pos; lia.
      - apply Z.div_le_upper_bound; lia. }
    rewrite (draw_bar_of_count p 40 _ (filled_count_width_40 p Hp))
      by lia.
    unfold spec_draw_bar. do 3 f_equal.
    lia.
  - repeat split; vm_compute; reflexivity.
Qed.

Lemma draw_bar_within_width_witness :
  0 <= 58 <= 100 /\ 1 <= 50 <= 2 ^ 53 /\
  exists f : Z,
    filled_count 58 50 = Ok f /\ 0 <= f <= 50 /\
    draw_bar 58 50 =
      Ok (str_repeat FULL_BLOCK f ++ str_repeat LIGHT_SHADE (50 - f)) /\
    len (str_repeat FULL_BLOCK f ++ str_repeat LIGHT_SHADE (50 - f)) = 50 /\
    len (str_repeat FULL_BLOCK f) = f /\
    len (str_repeat LIGHT_SHADE (50 - f)) = 50 - f /\
    (50 < 2 ^ 45 ->
     spec_filled 58 50 - 1 <= f <= spec_filled 58 50 /\
     ((58 * 50) mod 100 <> 0 -> f = spec_filled 58 50)).
Proof.
  split; [lia|]. split; [lia|].
  apply (proj1 draw_bar_within_width 58 50); lia.
Defined.

(** C3, as stated, fails: at 58 percent and width 50, the default width,
    [floor(58 / 100 * 50) = 29], but [58 / 100 * 50] is
    [28.999999999999996] in binary64 and [draw_bar] returns 28 filled and 22
    empty characters. *)
Lemma draw_bar_58_50 :
  0 <= 58 <= 100 /\ 0 < 50 /\
  spec_filled 58 50 = 29 /\
  draw_bar 58 50 =
    Ok (str_repeat FULL_BLOCK 28 ++ str_repeat LIGHT_SHADE 22) /\
  draw_bar 58 50 <> Ok (spec_draw_bar 58 50).
Proof.
  split; [lia|]. split; [lia|]. split; [reflexivity|].
  assert (H : draw_bar 58 50 =
              Ok (str_repeat FULL_BLOCK 28 ++ str_repeat LIGHT_SHADE 22))
    by (vm_compute; reflexivity).
  split; [exact H|]. rewrite H. vm_compute. discriminate.
Qed.

(** C8, as amended: [draw_bar] does not clamp.  For every percentage
    [p > 100] and every width [w >= 1] with [p * w < 100 * 2 ^ 45],
    [draw_bar(p, w)] is [f] filled glyphs followed by [max(0, w - f)] empty
    glyphs, where [f = int(p / 100 * w)] is the truncation of the product
    computed in binary64: [f] is [floor(p * w / 100)], except that it can be
    one less when [p * w] is a multiple of 100.  [f] is at least [w], so
    that no empty glyph follows, the string has [f] characters, and it is
    longer than [w] characters when [f > w], as for [draw_bar(200, 40)],
    which has 80 characters.  Far beyond this bound the count is not clamped
    either: at 100 * 2 ^ 63 percent and width 1 it is [2 ^ 63], which the
    repetition of the glyph refuses with [OverflowError]. *)
Theorem draw_bar_no_clamp :
  (forall p w : Z, 100 < p -> 1 <= w -> p * w < 100 * 2 ^ 45 ->
     exists f : Z,
       filled_count p w = Ok f /\ w <= f /\
       spec_filled p w - 1 <= f <= spec_filled p w /\
       ((p * w) mod 100 <> 0 -> f = spec_filled p w) /\
       draw_bar p w =
         Ok (str_repeat FULL_BLOCK f ++
             str_repeat LIGHT_SHADE (Z.max 0 (w - f))) /\
       len (str_repeat FULL_BLOCK f ++
            str_repeat LIGHT_SHADE (Z.max 0 (w - f))) = f /\
       (w < f ->
        w < len (str_repeat FULL_BLOCK f ++
                 str_repeat LIGHT_SHADE (Z.max 0 (w - f))))) /\
  draw_bar 200 40 = Ok (str_repeat FULL_BLOCK 80) /\
  filled_count (100 * 2 ^ 63) 1 = Ok (2 ^ 63) /\
  draw_bar (100 * 2 ^ 63) 1 = Raise OverflowError.
Proof.
  split; [|repeat split; vm_compute; reflexivity].
  intros p w Hp Hw Hpw.
  assert (Hpp : p * 1 <= p * w) by (apply Z.mul_le_mono_nonneg_l; lia).
  assert (Hww : 100 * w <= p * w) by (apply Z.mul_le_mono_nonneg_r; lia).
  assert (H970 : 100 * 2 ^ 45 <= 2 ^ 970) by (vm_compute; discriminate).
  destruct (filled_count_overflowing p w ltac:(lia) ltac:(lia))
    as (f & Hf & Hr).
  destruct (filled_count_near_floor p w) as (f' & Hf' & Hnear & Hex);
    try lia.
  rewrite Hf in Hf'. injection Hf' as <-.
  assert (Hfloor : spec_filled p w < 2 ^ 45).
  { unfold spec_filled. apply Z.div_lt_upper_bound; lia. }
  exists f. split; [exact Hf|]. split; [exact Hr|].
  split; [exact Hnear|]. split; [exact Hex|].
  assert (Hlen : len (str_repeat FULL_BLOCK f ++
                      str_repeat LIGHT_SHADE (Z.max 0 (w - f))) = f)
    by (rewrite len_bar; lia).
  split; [|split; [exact Hlen|rewrite Hlen; lia]].
  rewrite (draw_bar_of_count p w f Hf) by lia.
  now rewrite !(str_repeat_nonpos LIGHT_SHADE) by lia.
Qed.

Lemma draw_bar_no_clamp_witness :
  100 < 116 /\ 1 <= 25 /\ 116 * 25 < 100 * 2 ^ 45 /\
  exists f : Z,
    filled_count 116 25 = Ok f /\ 25 <= f /\
    spec_filled 116 25 - 1 <= f <= spec_filled 116 25 /\
    ((116 * 25) mod 100 <> 0 -> f = spec_filled 116 25) /\
    draw_bar 116 25 =
      Ok (str_repeat FULL_BLOCK f ++
          str_repeat LIGHT_SHADE (Z.max 0 (25 - f))) /\
    len (str_repeat FULL_BLOCK f ++
         str_repeat LIGHT_SHADE (Z.max 0 (25 - f))) = f /\
    (25 < f ->
     25 < len (str_repeat FULL_BLOCK f ++
               str_repeat LIGHT_SHADE (Z.max 0 (25 - f)))).
Proof.
  split; [lia|]. split; [lia|]. split; [lia|].
  apply (proj1 draw_bar_no_clamp 116 25); lia.
Defined.

(** C8, as stated, fails: at 116 percent and width 25,
    [floor(116 / 100 * 25) = 29], but [116 / 100 * 25] is
    [28.999999999999996] in binary64 and [draw_bar] returns 28 filled
    characters. *)
Lemma draw_bar_116_25 :
  100 < 116 /\ 0 < 25 /\
  spec_filled 116 25 = 29 /\
  draw_bar 116 25 = Ok (str_repeat FULL_BLOCK 28) /\
  draw_bar 116 25 <> Ok (spec_draw_bar 116 25).
Proof.
  split; [lia|]. split; [lia|]. split; [reflexivity|].
  assert (H : draw_bar 116 25 = Ok (str_repeat FULL_BLOCK 28))
    by (vm_compute; reflexivity).
  split; [exact H|]. rewrite H. vm_compute. discriminate.
Qed.

(** C9: for every percentage [0 <= p <= 100], [draw_bar(p, 0)], with width
    0, returns the empty string. *)
Theorem draw_bar_width_0 (p : Z) : 0 <= p <= 100 -> draw_bar p 0 = Ok [].
Proof.
  intros Hp.
  destruct (filled_count_range p 0 Hp ltac:(lia)) as (f & Hf & Hr).
  rewrite (draw_bar_of_count p 0 f Hf) by lia.
  replace f with 0 by lia. reflexivity.
Qed.

Lemma draw_bar_width_0_witness :
  0 <= 37 <= 100 /\ draw_bar 37 0 = Ok [].
Proof. split; [lia|]. apply (draw_bar_width_0 37). lia. Defined.

(** ** The report *)



(** C4, as stated, fails: the percentages of the table do sum to 100. *)
Lemma percentages_not_off_100 : ~ total_percentage components <> 100.
Proof. intros H. apply H. reflexivity. Qed.

(** C4, as amended: the percentages of the 11 entries of the table,
    37 + 17 + 12 + 10 + 7 + 5 + 4 + 3 + 2 + 2 + 1, sum to exactly 100. *)
Theorem percentages_sum_to_100 :
  List.length components = 11%nat /\
  map percentage components = [37; 17; 12; 10; 7; 5; 4; 3; 2; 2; 1] /\
  total_percentage components = 100.
Proof. repeat split. Qed.

(** C5, as stated, fails: no column of the header row is labelled
    "Percentage"; the word does not occur in the row. *)
Lemma header_without_percentage :
  nth_error (lines report) 4 = Some header_line /\
  contains (lit "Percentage") header_line = false /\
  words header_line <>
    [lit "Component"; lit "Size"; lit "Percentage"; lit "Bar";
     lit "Description"].
Proof.
  split; [vm_compute; reflexivity|].
  split; [vm_compute; reflexivity|].
  vm_compute. discriminate.
Qed.

(** C5, as amended: the column header row, the fifth line of the report,
    holds five labelled columns, Component, Size, %, Bar and Description (the
    percentage column is labelled "%"), the first and the last two aligned
    to the left and the second and third to the right, and it is followed by
    a rule of 135 dashes. *)
Theorem header_then_rule :
  nth_error (lines report) 4 = Some header_line /\
  words header_line =
    [lit "Component"; lit "Size"; lit "%"; lit "Bar"; lit "Description"] /\
  header_line =
    lit "Component                  Size     %  Bar                                                 Description                   " /\
  nth_error (lines report) 5 = Some rule_line /\
  len rule_line = 135 /\
  count_char 45%N rule_line = 135.
Proof. repeat split; vm_compute; reflexivity. Qed.

(** C6: a table row shows at most 50 characters of the description.  For
    every entry with a percentage in 0..100 and a size in [0, 2 ^ 53), as all
    the entries of the table are, the row that the loop prints is the fields
    of the name, the size, the percentage and the bar followed by the
    description cut at 50 characters: exactly the first 50 characters of a
    longer description, and the whole of a description of at most 50
    characters. *)
Theorem row_description_cut :
  (forall c : ComponentEntry,
     0 <= percentage c <= 100 -> 0 <= size_kb c < 2 ^ 53 ->
     exists bar size_str shown : str,
       draw_bar (percentage c) BAR_WIDTH = Ok bar /\
       format_size (size_kb c) = Ok size_str /\
       writes (print_row c)
         ((ljust 20 (name c) ++ lit " " ++ rjust 10 size_str ++ lit " " ++
           rjust 4 (str_of_int (percentage c)) ++ lit "%  " ++ bar ++
           lit "  ") ++ shown ++ NEWLINE) /\
       shown = firstn 50 (description c) /\
       (50 < len (description c) -> len shown = 50) /\
       (len (description c) <= 50 -> shown = description c)) /\
  Forall (fun c => 0 <= percentage c <= 100 /\ 0 <= size_kb c < 2 ^ 53)
    components.
Proof.
  split.
  - intros c Hp Hs.
    destruct (filled_count_range (percentage c) BAR_WIDTH Hp)
      as (f & Hf & Hr); [unfold BAR_WIDTH; lia|].
    unfold BAR_WIDTH in Hr.
    pose proof (draw_bar_of_count _ _ _ Hf ltac:(lia)
                  ltac:(unfold BAR_WIDTH; lia)) as Hbar.
    pose proof (format_size_exact (size_kb c) Hs) as Hsize.
    eexists. eexists. exists (slice_to DESC_MAX (description c)).
    split; [exact Hbar|]. split; [exact Hsize|]. split; [|split; [|split]].
    + pose proof (writes_row c _ _ Hbar Hsize) as Hw.
      unfold row_text in Hw. now rewrite <- !app_assoc in *.
    + reflexivity.
    + intros Hlong. apply len_slice_to_long; unfold DESC_MAX; lia.
    + intros Hshort. now apply slice_to_short.
  - unfold components. repeat (apply Forall_cons; [simpl; lia|]).
    apply Forall_nil.
Qed.

Lemma row_description_cut_witness :
  0 <= percentage long_entry <= 100 /\ 0 <= size_kb long_entry < 2 ^ 53 /\
  50 < len (description long_entry) /\
  exists bar size_str shown : str,
    draw_bar (percentage long_entry) BAR_WIDTH = Ok bar /\
    format_size (size_kb long_entry) = Ok size_str /\
    writes (print_row long_entry)
      ((ljust 20 (name long_entry) ++ lit " " ++ rjust 10 size_str ++ lit " " ++
        rjust 4 (str_of_int (percentage long_entry)) ++ lit "%  " ++ bar ++ lit "  ") ++
       shown ++ NEWLINE) /\
    shown = firstn 50 (description long_entry) /\
    (50 < len (description long_entry) -> len shown = 50) /\
    (len (description long_entry) <= 50 -> shown = description long_entry).
Proof.
  split; [simpl; lia|]. split; [simpl; lia|].
  split; [vm_compute; reflexivity|].
  apply (proj1 row_description_cut long_entry); simpl; lia.
Defined.



(** C10: the sizes of the 11 entries of the table sum to 1220 KB, and
    [format_size(1220) = "1.2MB"], which agrees with the total "1.2 MB" of
    the title line of the banner, the second line of the report. *)
Theorem sizes_agree_with_banner :
  List.length components = 11%nat /\
  total_size components = 1220 /\
  format_size (total_size components) = Ok (lit "1.2" ++ lit "MB") /\
  title_line =
    lit "TStorie Binary Size Breakdown (" ++
    lit "1.2" ++ lit " " ++ lit "MB" ++ lit " total)" /\
  nth_error (lines report) 1 = Some title_line.
Proof. repeat split; vm_compute; reflexivity. Qed.

(** * Further properties *)

(** ** The range of the doubles *)

Lemma rne_div_mono (a1 a2 b : Z) :
  0 < b -> a1 <= a2 -> rne_div a1 b <= rne_div a2 b.
Proof.
  intros Hb Hle.
  assert (Hq : a1 / b <= a2 / b) by (apply Z.div_le_mono; lia).
  destruct (Z.eq_dec (a1 / b) (a2 / b)) as [Heq|Hne].
  - pose proof (Z.div_mod a1 b ltac:(lia)) as H1.
    pose proof (Z.div_mod a2 b ltac:(lia)) as H2.
    assert (Hr : a1 mod b <= a2 mod b) by (rewrite Heq in H1; lia).
    unfold rne_div. rewrite Heq.
    destruct (Z.compare_spec (2 * (a1 mod b)) b),
      (Z.compare_spec (2 * (a2 mod b)) b);
      destruct (Z.even (a2 / b)); lia.
  - pose proof (rne_div_upper a1 b). pose proof (rne_div_lower a2 b). lia.
Qed.

(** Below the middle of [c - 1] and [c], the quotient is rounded below [c];
    from the middle on, it is rounded to [c] at least when [c] is even. *)
Lemma rne_div_below_middle (a b c : Z) :
  0 < b -> 2 * a < (2 * c - 1) * b -> rne_div a b < c.
Proof.
  intros Hb Hlt. pose proof (rne_div_error a b Hb) as [Hu _]. nia.
Qed.

Lemma rne_div_from_middle (a b c : Z) :
  0 < b -> (2 * c - 1) * b <= 2 * a -> Z.even c = true -> c <= rne_div a b.
Proof.
  intros Hb Hge Hc.
  assert (Hq : c - 1 <= a / b) by (apply Z.div_le_lower_bound; nia).
  destruct (Z.eq_dec (a / b) (c - 1)) as [Heq|Hne].
  - pose proof (Z.div_mod a b ltac:(lia)) as Hd. rewrite Heq in Hd.
    unfold rne_div. rewrite Heq.
    assert (Hodd : Z.even (c - 1) = false).
    { replace (c - 1) with (Z.pred c) by lia.
      rewrite Z.even_pred. now rewrite <- Z.negb_even, Hc. }
    rewrite Hodd.
    destruct (Z.compare_spec (2 * (a mod b)) b); nia.
  - pose proof (rne_div_lower a b). lia.
Qed.

Lemma ilog2_ratio_upper (n d : Z) :
  0 < d -> d <= n -> n < 2 ^ (Z.log2 (n / d) + 1) * d.
Proof.
  intros Hd Hdn.
  assert (Hq : 0 < n / d) by (apply Z.div_str_pos; lia).
  pose proof (Z.log2_spec (n / d) Hq) as [_ Hup].
  rewrite <- Z.add_1_r in Hup.
  pose proof (Z.div_mod n d ltac:(lia)). pose proof (Z.mod_pos_bound n d Hd).
  nia.
Qed.

(** The exponent and the mantissa of a rounded value of at least one. *)
Lemma round_pos_ge_one (n d : Z) :
  0 < d -> d <= n ->
  expo (round_pos n d) = Z.log2 (n / d) - 52 /\
  0 <= Z.log2 (n / d) /\
  2 ^ 52 <= mant (round_pos n d) <= 2 ^ 53.
Proof.
  intros Hd Hdn.
  pose proof (Z.log2_nonneg (n / d)) as Hk0.
  pose proof (ilog2_ratio_upper n d Hd Hdn) as Hup.
  pose proof (ilog2_ratio_spec n d ltac:(lia) Hd) as Hlow.
  rewrite (ilog2_ratio_ge_one n d Hd Hdn) in Hlow.
  destruct Hlow as [[_ Hlow]|[Hneg _]]; [|lia].
  unfold round_pos, prec, emin. cbn [mant expo].
  rewrite ilog2_ratio_ge_one by lia.
  set (k := Z.log2 (n / d)) in *.
  replace (Z.max (k - (53 - 1)) (-1074)) with (k - 52) by lia.
  split; [reflexivity|]. split; [lia|].
  destruct (0 <=? k - 52) eqn:He.
  - apply Z.leb_le in He.
    assert (Hp : 0 < 2 ^ (k - 52)) by (apply Z.pow_pos_nonneg; lia).
    assert (Hk : 2 ^ k = 2 ^ 52 * 2 ^ (k - 52)).
    { rewrite <- Z.pow_add_r by lia. f_equal. lia. }
    assert (Hk1 : 2 ^ (k + 1) = 2 ^ 53 * 2 ^ (k - 52)).
    { rewrite <- Z.pow_add_r by lia. f_equal. lia. }
    rewrite Hk in Hlow. rewrite Hk1 in Hup.
    set (pe := 2 ^ (k - 52)) in *.
    split.
    + apply rne_div_ge; nia.
    + apply rne_div_le; nia.
  - apply Z.leb_gt in He.
    assert (Hp : 0 < 2 ^ (- (k - 52))) by (apply Z.pow_pos_nonneg; lia).
    assert (Hk : 2 ^ 52 = 2 ^ k * 2 ^ (- (k - 52))).
    { rewrite <- Z.pow_add_r by lia. f_equal. lia. }
    assert (Hk1 : 2 ^ 53 = 2 ^ (k + 1) * 2 ^ (- (k - 52))).
    { rewrite <- Z.pow_add_r by lia. f_equal. lia. }
    rewrite Hk, Hk1.
    set (pe := 2 ^ (- (k - 52))) in *.
    set (pk := 2 ^ k) in *. set (pk1 := 2 ^ (k + 1)) in *.
    split.
    + apply rne_div_ge; nia.
    + apply rne_div_le; nia.
Qed.

(** A quotient of at least one is a double exactly when it lies below the
    middle of the largest double and [2 ^ 1024]. *)
Lemma round_pos_finite (n d : Z) :
  0 < d -> d <= n -> n < overflow_from d ->
  is_finite (round_pos n d) = true.
Proof.
  intros Hd Hdn Hlt. unfold overflow_from in Hlt.
  destruct (round_pos_ge_one n d Hd Hdn) as (He & Hk0 & Hm).
  unfold is_finite. apply orb_true_iff. right. apply Z.ltb_lt.
  rewrite Z.abs_eq by lia. rewrite He.
  assert (Hk : Z.log2 (n / d) <= 1023).
  { assert (Hq : 0 < n / d) by (apply Z.div_str_pos; lia).
    assert (n / d < 2 ^ 1024); [|apply Z.log2_lt_pow2 in H; lia].
    apply Z.div_lt_upper_bound; [lia|].
    assert (2 ^ 1024 - 2 ^ 970 < 2 ^ 1024) by (vm_compute; reflexivity).
    nia. }
  assert (Hl53 : Z.log2 (mant (round_pos n d)) <= 53).
  { rewrite <- (Z.log2_pow2 53) by lia. apply Z.log2_le_mono. lia. }
  destruct (Z.eq_dec (Z.log2 (n / d)) 1023) as [Heq|Hne]; [|unfold emax; lia].
  assert (Hm' : mant (round_pos n d) < 2 ^ 53).
  { unfold round_pos, prec, emin in *. cbn [mant expo] in *.
    rewrite ilog2_ratio_ge_one in * by lia. rewrite Heq in *.
    change (Z.max (1023 - (53 - 1)) (-1074)) with 971.
    change (0 <=? 971) with true. cbv iota.
    apply rne_div_below_middle.
    - apply Z.mul_pos_pos; [lia|]. vm_compute. reflexivity.
    - replace ((2 * 2 ^ 53 - 1) * (d * 2 ^ 971))
        with (2 * ((2 ^ 1024 - 2 ^ 970) * d)); [lia|].
      change (2 ^ 1024 - 2 ^ 970) with ((2 ^ 54 - 1) * 2 ^ 970).
      change (2 ^ 971) with (2 * 2 ^ 970). change (2 * 2 ^ 53) with (2 ^ 54).
      ring. }
  apply Z.log2_lt_pow2 in Hm'; [|lia]. unfold emax. lia.
Qed.

Lemma round_pos_overflow (n d : Z) :
  0 < d -> overflow_from d <= n -> is_finite (round_pos n d) = false.
Proof.
  intros Hd Hge. unfold overflow_from in Hge.
  assert (Hbig : 2 ^ 1023 * d <= n).
  { assert (2 ^ 1023 <= 2 ^ 1024 - 2 ^ 970) by (vm_compute; discriminate).
    nia. }
  assert (Hp1023 : 0 < 2 ^ 1023) by (vm_compute; reflexivity).
  assert (Hdn : d <= n) by nia.
  destruct (round_pos_ge_one n d Hd Hdn) as (He & Hk0 & Hm).
  assert (Hk : 1023 <= Z.log2 (n / d)).
  { rewrite <- (Z.log2_pow2 1023) by lia. apply Z.log2_le_mono.
    apply Z.div_le_lower_bound; lia. }
  unfold is_finite. apply orb_false_iff. split.
  - apply Z.eqb_neq. lia.
  - apply Z.ltb_ge. rewrite Z.abs_eq by lia. rewrite He. unfold emax.
    assert (Hl52 : 52 <= Z.log2 (mant (round_pos n d))).
    { rewrite <- (Z.log2_pow2 52) by lia. apply Z.log2_le_mono. lia. }
    destruct (Z.eq_dec (Z.log2 (n / d)) 1023) as [Heq|Hne]; [|lia].
    assert (Hm' : 2 ^ 53 <= mant (round_pos n d)).
    { unfold round_pos, prec, emin in *. cbn [mant expo] in *.
      rewrite ilog2_ratio_ge_one in * by lia. rewrite Heq in *.
      change (Z.max (1023 - (53 - 1)) (-1074)) with 971.
      change (0 <=? 971) with true. cbv iota.
      apply rne_div_from_middle; [| |reflexivity].
      - apply Z.mul_pos_pos; [lia|]. vm_compute. reflexivity.
      - replace ((2 * 2 ^ 53 - 1) * (d * 2 ^ 971))
          with (2 * ((2 ^ 1024 - 2 ^ 970) * d)); [lia|].
        change (2 ^ 1024 - 2 ^ 970) with ((2 ^ 54 - 1) * 2 ^ 970).
        change (2 ^ 971) with (2 * 2 ^ 970). change (2 * 2 ^ 53) with (2 ^ 54).
        ring. }
    assert (53 <= Z.log2 (mant (round_pos n d))); [|lia].
    rewrite <- (Z.log2_pow2 53) by lia. apply Z.log2_le_mono. lia.
Qed.

(** ** Opposite percentages *)

Lemma round_ratio_opp (n d : Z) :
  round_ratio (- n) d = float_opp (round_ratio n d).
Proof.
  unfold round_ratio, float_opp.
  destruct (Z.eq_dec n 0) as [->|Hn]; [reflexivity|].
  assert (Hz : (n =? 0) = false) by (apply Z.eqb_neq; lia).
  assert (Hz' : (- n =? 0) = false) by (apply Z.eqb_neq; lia).
  rewrite Hz, Hz', Z.abs_opp, Z.sgn_opp. cbn [mant expo].
  now rewrite Z.mul_opp_l.
Qed.

Lemma is_finite_opp (f : float) : is_finite (float_opp f) = is_finite f.
Proof.
  unfold is_finite, float_opp. cbn [mant expo]. rewrite Z.abs_opp.
  f_equal. destruct (Z.eqb_spec (mant f) 0), (Z.eqb_spec (- mant f) 0);
    try reflexivity; lia.
Qed.

Lemma num_opp (f : float) : num (float_opp f) = - num f.
Proof.
  unfold num, float_opp. cbn [mant expo].
  destruct (0 <=? expo f); [now rewrite Z.mul_opp_l|reflexivity].
Qed.

Lemma den_opp (f : float) : den (float_opp f) = den f.
Proof. reflexivity. Qed.

Lemma int_true_div_opp (a b : Z) :
  int_true_div (- a) b = result_map float_opp (int_true_div a b).
Proof.
  unfold int_true_div. destruct (b =? 0); [reflexivity|].
  rewrite Z.mul_opp_r, round_ratio_opp, is_finite_opp.
  now destruct (is_finite _).
Qed.

Lemma mul_opp_l (x y : float) :
  mul (float_opp x) y = option_map float_opp (mul x y).
Proof.
  unfold mul. rewrite num_opp, den_opp, Z.mul_opp_l, round_ratio_opp.
  rewrite is_finite_opp. now destruct (is_finite _).
Qed.

Lemma to_int_opp (o : option float) :
  to_int (option_map float_opp o) = result_map Z.opp (to_int o).
Proof.
  destruct o as [f|]; [|reflexivity]. cbn [option_map to_int result_map].
  rewrite num_opp, den_opp. f_equal.
  apply Z.quot_opp_l. pose proof (den_pos f). lia.
Qed.

Lemma filled_count_opp (p w : Z) :
  filled_count (- p) w = result_map Z.opp (filled_count p w).
Proof.
  unfold filled_count. rewrite int_true_div_opp.
  destruct (int_true_div p 100) as [x|e]; [|reflexivity]. cbn [result_map bind].
  destruct (of_int w) as [y|e]; [|reflexivity]. cbn [bind].
  rewrite mul_opp_l. apply to_int_opp.
Qed.

(** ** Where the filled count is defined *)

Lemma filled_count_defined (p w : Z) :
  0 <= p <= 2 ^ 970 -> 0 <= w <= 2 ^ 53 ->
  exists f, filled_count p w = Ok f /\ 0 <= f.
Proof.
  intros Hp Hw. unfold filled_count.
  rewrite (int_true_div_nonneg p 100 970) by (unfold emax; lia).
  destruct (of_int_exact w Hw) as (-> & Hy & Hy1).
  cbn [bind].
  assert (Hx : 0 <= mant (round_ratio p 100)) by (apply round_ratio_mant_nonneg; lia).
  assert (Hx2 : num (round_ratio p 100) <= 2 ^ 970 * den (round_ratio p 100)).
  { apply round_ratio_le_pow2; lia. }
  set (x := round_ratio p 100) in *. set (y := round_ratio w 1) in *.
  pose proof (den_pos x) as Hdx. pose proof (den_pos y) as Hdy.
  pose proof (num_nonneg x Hx) as Hnx.
  assert (Hprod : num x * num y <= 2 ^ 1023 * (den x * den y)).
  { rewrite Hy1. change (2 ^ 1023) with (2 ^ 970 * 2 ^ 53).
    transitivity (2 ^ 970 * den x * (2 ^ 53 * den y)); [|lia].
    apply Z.mul_le_mono_nonneg; nia. }
  rewrite (mul_nonneg x y 1023); auto; [|unfold emax; lia].
  set (f := round_ratio _ _).
  assert (Hf : 0 <= mant f) by (apply round_ratio_mant_nonneg; nia).
  rewrite to_int_nonneg by exact Hf.
  exists (num f / den f). split; [reflexivity|].
  pose proof (den_pos f). pose proof (num_nonneg f Hf).
  apply Z.div_pos; lia.
Qed.

Lemma int_true_div_finite (a d : Z) :
  0 < d -> 0 <= a < overflow_from d ->
  int_true_div a d = Ok (round_ratio a d).
Proof.
  intros Hd Ha. unfold int_true_div.
  destruct (d =? 0) eqn:Hz; [apply Z.eqb_eq in Hz; lia|].
  rewrite Z.sgn_pos, Z.mul_1_l, Z.abs_eq by lia.
  destruct (Z_lt_le_dec a d) as [Hlt|Hge].
  - rewrite (is_finite_le _ 0); auto; [| |unfold emax; lia].
    + apply round_ratio_mant_nonneg; lia.
    + change (2 ^ 0) with 1. apply round_ratio_le_small; lia.
  - rewrite round_ratio_pos by lia.
    now rewrite round_pos_finite by lia.
Qed.

Lemma int_true_div_overflow (a d : Z) :
  0 < d -> overflow_from d <= a -> int_true_div a d = Raise OverflowError.
Proof.
  intros Hd Ha. unfold int_true_div.
  destruct (d =? 0) eqn:Hz; [apply Z.eqb_eq in Hz; lia|].
  rewrite Z.sgn_pos, Z.mul_1_l, Z.abs_eq by lia.
  assert (Hpos : 0 < a).
  { unfold overflow_from in Ha.
    assert (0 < 2 ^ 1024 - 2 ^ 970) by (vm_compute; reflexivity). nia. }
  rewrite round_ratio_pos by lia.
  now rewrite round_pos_overflow by lia.
Qed.

Lemma of_int_overflow (n : Z) :
  overflow_from 1 <= n -> of_int n = Raise OverflowError.
Proof.
  intros Hn. unfold of_int.
  assert (Hpos : 0 < n).
  { unfold overflow_from in Hn.
    assert (0 < 2 ^ 1024 - 2 ^ 970) by (vm_compute; reflexivity). lia. }
  rewrite round_ratio_pos by lia.
  now rewrite round_pos_overflow by lia.
Qed.

(** ** Further properties of [format_size] and [draw_bar] *)

(** X1: [format_size(kb)] returns a string for every integer [kb] with
    [- 10 ^ 4300 < kb < 2 ^ 1034 - 2 ^ 980]; it raises [OverflowError] for
    every integer from [2 ^ 1034 - 2 ^ 980] on, where the quotient
    [kb / 1024] rounds to [2 ^ 1024], which no double holds; and it raises
    [ValueError] for every integer down from [- 10 ^ 4300], whose more than
    4300 digits are not converted to a string. *)
Theorem format_size_range :
  (forall kb : Z, - MAX_STR_MAGNITUDE < kb < overflow_from 1024 ->
     exists s, format_size kb = Ok s) /\
  (forall kb : Z, overflow_from 1024 <= kb ->
     format_size kb = Raise OverflowError) /\
  (forall kb : Z, kb <= - MAX_STR_MAGNITUDE ->
     format_size kb = Raise ValueError) /\
  overflow_from 1024 = 2 ^ 1034 - 2 ^ 980 /\
  MAX_STR_MAGNITUDE = 10 ^ 4300.
Proof.
  pose proof max_str_magnitude_large as Hmax.
  split; [|split; [|split; [|split; [vm_compute|]; reflexivity]]].
  - intros kb Hkb. unfold format_size.
    destruct (1024 <=? kb) eqn:Hc.
    + apply Z.leb_le in Hc.
      rewrite int_true_div_finite by lia. eexists. reflexivity.
    + apply Z.leb_gt in Hc.
      rewrite int_to_str_defined by lia. eexists. reflexivity.
  - intros kb Hkb. unfold format_size.
    assert (H1024 : 1024 <= overflow_from 1024) by (vm_compute; discriminate).
    destruct (1024 <=? kb) eqn:Hc; [|apply Z.leb_gt in Hc; lia].
    now rewrite int_true_div_overflow by lia.
  - intros kb Hkb. unfold format_size, int_to_str.
    destruct (1024 <=? kb) eqn:Hc; [apply Z.leb_le in Hc; lia|].
    destruct (Z.abs kb <? MAX_STR_MAGNITUDE) eqn:Ha;
      [apply Z.ltb_lt in Ha; lia|reflexivity].
Qed.

Lemma format_size_range_witness :
  (- MAX_STR_MAGNITUDE < 2 ^ 53 + 51 < overflow_from 1024 /\
   exists s, format_size (2 ^ 53 + 51) = Ok s) /\
  (overflow_from 1024 <= 2 ^ 1034 /\
   format_size (2 ^ 1034) = Raise OverflowError) /\
  (- 10 ^ 4300 <= - MAX_STR_MAGNITUDE /\
   format_size (- 10 ^ 4300) = Raise ValueError).
Proof.
  split; [|split].
  - assert (H : - MAX_STR_MAGNITUDE < 2 ^ 53 + 51 < overflow_from 1024)
      by (split; vm_compute; reflexivity).
    split; [exact H|]. exact (proj1 format_size_range (2 ^ 53 + 51) H).
  - assert (H : overflow_from 1024 <= 2 ^ 1034) by (vm_compute; discriminate).
    split; [exact H|]. exact (proj1 (proj2 format_size_range) (2 ^ 1034) H).
  - assert (H : - 10 ^ 4300 <= - MAX_STR_MAGNITUDE)
      by (vm_compute; discriminate).
    split; [exact H|].
    exact (proj1 (proj2 (proj2 format_size_range)) (- 10 ^ 4300) H).
Defined.

(** X2: [draw_bar(p, w)] raises [OverflowError], whatever the width, for
    every percentage from [100 * (2 ^ 1024 - 2 ^ 970)] on, whose quotient by
    100 is too large for a double, and, for a percentage from 0 up to there,
    for every width from [2 ^ 1024 - 2 ^ 970] on, which cannot be converted to
    a double. *)
Theorem draw_bar_overflow :
  (forall p w : Z, overflow_from 100 <= p ->
     draw_bar p w = Raise OverflowError) /\
  (forall p w : Z, 0 <= p < overflow_from 100 -> overflow_from 1 <= w ->
     draw_bar p w = Raise OverflowError) /\
  overflow_from 100 = 100 * (2 ^ 1024 - 2 ^ 970) /\
  overflow_from 1 = 2 ^ 1024 - 2 ^ 970.
Proof.
  split; [|split; [|split; vm_compute; reflexivity]].
  - intros p w Hp. unfold draw_bar, filled_count.
    now rewrite int_true_div_overflow by lia.
  - intros p w Hp Hw. unfold draw_bar, filled_count.
    rewrite int_true_div_finite by lia. cbn [bind].
    now rewrite of_int_overflow by lia.
Qed.

Lemma draw_bar_overflow_witness :
  (overflow_from 100 <= 2 ^ 1031 /\ draw_bar (2 ^ 1031) 40 = Raise OverflowError) /\
  (0 <= 37 < overflow_from 100 /\ overflow_from 1 <= 2 ^ 1024 /\
   draw_bar 37 (2 ^ 1024) = Raise OverflowError).
Proof.
  split.
  - assert (H : overflow_from 100 <= 2 ^ 1031) by (vm_compute; discriminate).
    split; [exact H|]. exact (proj1 draw_bar_overflow (2 ^ 1031) 40 H).
  - assert (H : 0 <= 37 < overflow_from 100)
      by (split; [discriminate|vm_compute; reflexivity]).
    assert (H' : overflow_from 1 <= 2 ^ 1024) by (vm_compute; discriminate).
    split; [exact H|]. split; [exact H'|].
    exact (proj1 (proj2 draw_bar_overflow) 37 (2 ^ 1024) H H').
Defined.

(** X3: at 100 percent the bar is entirely filled and at 0 percent it is
    entirely empty, for every width from 0 to [2 ^ 53]. *)
Theorem draw_bar_full_and_empty (w : Z) :
  0 <= w <= 2 ^ 53 ->
  draw_bar 100 w = Ok (str_repeat FULL_BLOCK w) /\
  draw_bar 0 w = Ok (str_repeat LIGHT_SHADE w).
Proof.
  intros Hw. split.
  - destruct (filled_count_range 100 w ltac:(lia) Hw) as (f & Hf & Hr).
    assert (H100 : 100 <= 100 <= 2 ^ 970)
      by (split; [lia|vm_compute; discriminate]).
    destruct (filled_count_overflowing 100 w H100 Hw) as (f' & Hf' & Hr').
    rewrite Hf in Hf'. injection Hf' as <-.
    assert (f = w) by lia. subst f.
    rewrite (draw_bar_of_count _ _ _ Hf) by lia. rewrite Z.sub_diag.
    apply f_equal, app_nil_r.
  - destruct (filled_count_range 0 w ltac:(lia) Hw) as (f & Hf & Hr).
    destruct (filled_count_near_floor 0 w) as (f' & Hf' & Hn & _); try lia.
    rewrite Hf in Hf'. injection Hf' as <-.
    unfold spec_filled in Hn. cbn in Hn.
    assert (f = 0) by lia. subst f.
    rewrite (draw_bar_of_count _ _ _ Hf) by lia.
    rewrite Z.sub_0_r. reflexivity.
Qed.

Lemma draw_bar_full_and_empty_witness :
  0 <= 50 <= 2 ^ 53 /\
  draw_bar 100 50 = Ok (str_repeat FULL_BLOCK 50) /\
  draw_bar 0 50 = Ok (str_repeat LIGHT_SHADE 50).
Proof. split; [lia|]. apply (draw_bar_full_and_empty 50). lia. Defined.

(** X4: the filled count never decreases when the percentage or the width
    grows: for [0 <= p1 <= p2] and [0 <= w1 <= w2] with [1 <= w2 <= 2 ^ 53]
    and [p2 * w2 < 100 * 2 ^ 45], [int(p1 / 100 * w1) <= int(p2 / 100 * w2)]. *)
Theorem filled_count_monotone (p1 p2 w1 w2 : Z) :
  0 <= p1 <= p2 -> 0 <= w1 <= w2 -> 1 <= w2 <= 2 ^ 53 ->
  p2 * w2 < 100 * 2 ^ 45 ->
  exists f1 f2 : Z,
    filled_count p1 w1 = Ok f1 /\ filled_count p2 w2 = Ok f2 /\ f1 <= f2.
Proof.
  intros Hp Hw Hw2 Hpw.
  assert (H970 : 100 * 2 ^ 45 <= 2 ^ 970) by (vm_compute; discriminate).
  assert (Hp2 : p2 * 1 <= p2 * w2) by (apply Z.mul_le_mono_nonneg_l; lia).
  assert (H11 : p1 * w1 <= p2 * w2) by (apply Z.mul_le_mono_nonneg; lia).
  destruct (filled_count_near_floor p1 w1) as (f1 & Hf1 & Hn1 & He1); try lia.
  destruct (filled_count_near_floor p2 w2) as (f2 & Hf2 & Hn2 & He2); try lia.
  destruct (filled_count_defined p2 w2) as (f2' & Hf2' & Hpos2); try lia.
  rewrite Hf2 in Hf2'. injection Hf2' as <-.
  exists f1, f2. split; [exact Hf1|]. split; [exact Hf2|].
  unfold spec_filled in *.
  pose proof (Z.div_mod (p1 * w1) 100 ltac:(lia)) as Hd1.
  pose proof (Z.mod_pos_bound (p1 * w1) 100 ltac:(lia)) as Hr1.
  pose proof (Z.div_mod (p2 * w2) 100 ltac:(lia)) as Hd2.
  pose proof (Z.mod_pos_bound (p2 * w2) 100 ltac:(lia)) as Hr2.
  assert (HN : p1 * w1 / 100 <= p2 * w2 / 100) by (apply Z.div_le_mono; lia).
  destruct (Z.eq_dec (p1 * w1) (p2 * w2)) as [Heq|Hne].
  - (* the same product: the same pair, or a product of zero *)
    destruct (Z.eq_dec (p1 * w1) 0) as [Hz|Hnz].
    + rewrite Hz in Hn1. cbn in Hn1. lia.
    + assert (p1 = p2 /\ w1 = w2) as [-> ->] by nia.
      rewrite Hf1 in Hf2. injection Hf2 as <-. lia.
  - destruct (Z.eq_dec (p1 * w1 / 100) (p2 * w2 / 100)) as [HNeq|HNne].
    + assert (Hrem : (p2 * w2) mod 100 <> 0) by lia.
      specialize (He2 Hrem). lia.
    + lia.
Qed.

Lemma filled_count_monotone_witness :
  0 <= 57 <= 58 /\ 0 <= 50 <= 50 /\ 1 <= 50 <= 2 ^ 53 /\
  58 * 50 < 100 * 2 ^ 45 /\
  exists f1 f2 : Z,
    filled_count 57 50 = Ok f1 /\ filled_count 58 50 = Ok f2 /\ f1 <= f2.
Proof.
  split; [lia|]. split; [lia|]. split; [lia|]. split; [lia|].
  apply (filled_count_monotone 57 58 50 50); lia.
Defined.

Lemma filled_count_small (p w : Z) :
  0 <= p < 100 * 2 ^ 45 -> 0 <= w <= 2 ^ 53 -> p * w < 100 * 2 ^ 45 ->
  exists f, filled_count p w = Ok f /\ 0 <= f < 2 ^ 45.
Proof.
  intros Hp Hw Hpw.
  assert (H970 : 100 * 2 ^ 45 <= 2 ^ 970) by (vm_compute; discriminate).
  destruct (filled_count_near_floor p w) as (f & Hf & Hnear & _); try lia.
  destruct (filled_count_defined p w) as (f' & Hf' & Hpos); try lia.
  rewrite Hf in Hf'. injection Hf' as <-.
  exists f. split; [exact Hf|].
  assert (spec_filled p w < 2 ^ 45)
    by (unfold spec_filled; apply Z.div_lt_upper_bound; lia).
  lia.
Qed.

(** X5: a bar is never shorter than the width.  For every percentage [p]
    and every width [0 <= w <= 2 ^ 53] with [|p| < 100 * 2 ^ 45] and
    [|p| * w < 100 * 2 ^ 45], [draw_bar(p, w)] returns a string of
    [max(w, f, w - f)] characters, where [f = int(p / 100 * w)]: exactly [w]
    characters when [0 <= f <= w], and more otherwise.  A count that does
    not fit the index type makes the repetition raise [OverflowError], as
    at 100 * 2 ^ 63 percent and at - 100 * (2 ^ 63 + 4096) percent, for
    width 1. *)
Theorem draw_bar_length :
  (forall p w : Z,
     Z.abs p < 100 * 2 ^ 45 -> 0 <= w <= 2 ^ 53 ->
     Z.abs p * w < 100 * 2 ^ 45 ->
     exists (f : Z) (s : str),
       filled_count p w = Ok f /\ draw_bar p w = Ok s /\
       len s = Z.max w (Z.max f (w - f)) /\
       w <= len s /\
       (len s = w <-> 0 <= f <= w)) /\
  draw_bar (100 * 2 ^ 63) 1 = Raise OverflowError /\
  draw_bar (- 100 * (2 ^ 63 + 4096)) 1 = Raise OverflowError.
Proof.
  split; [|split; vm_compute; reflexivity].
  intros p w Hp Hw Hpw.
  assert (Hex : exists f, filled_count p w = Ok f /\ - 2 ^ 45 < f < 2 ^ 45).
  { destruct (Z_le_gt_dec 0 p) as [Hpos|Hneg].
    - rewrite Z.abs_eq in * by lia.
      destruct (filled_count_small p w) as (f & Hf & Hb); try lia.
      exists f. split; [exact Hf|lia].
    - rewrite Z.abs_neq in * by lia.
      destruct (filled_count_small (- p) w) as (f & Hf & Hb); try lia.
      exists (- f). replace p with (- - p) by lia.
      rewrite filled_count_opp, Hf. split; [reflexivity|lia]. }
  destruct Hex as (f & Hf & Hb). exists f. eexists.
  split; [exact Hf|].
  split; [exact (draw_bar_of_count p w f Hf ltac:(lia) ltac:(lia))|].
  rewrite len_bar. lia.
Qed.

Lemma draw_bar_length_witness :
  Z.abs (-50) < 100 * 2 ^ 45 /\ 0 <= 40 <= 2 ^ 53 /\
  Z.abs (-50) * 40 < 100 * 2 ^ 45 /\
  exists (f : Z) (s : str),
    filled_count (-50) 40 = Ok f /\ draw_bar (-50) 40 = Ok s /\
    len s = Z.max 40 (Z.max f (40 - f)) /\
    40 <= len s /\
    (len s = 40 <-> 0 <= f <= 40).
Proof.
  split; [simpl; lia|]. split; [lia|]. split; [simpl; lia|].
  apply (proj1 draw_bar_length (-50) 40); simpl; lia.
Defined.

(** X6: the filled count is odd in the percentage, because [int] truncates
    toward zero: [int(-p / 100 * w) = - int(p / 100 * w)], and both raise
    together.  So for [0 < p < 100 * 2 ^ 45] and a width
    [0 <= w <= 2 ^ 53] with [p * w < 100 * 2 ^ 45], [draw_bar(-p, w)] has no
    filled glyph and [w + f] empty glyphs, where [f = int(p / 100 * w)]. *)
Theorem draw_bar_negative :
  (forall p w : Z,
     filled_count (- p) w = result_map Z.opp (filled_count p w)) /\
  (forall p w : Z,
     0 < p < 100 * 2 ^ 45 -> 0 <= w <= 2 ^ 53 -> p * w < 100 * 2 ^ 45 ->
     exists f : Z,
       filled_count p w = Ok f /\ 0 <= f /\
       draw_bar (- p) w = Ok (str_repeat LIGHT_SHADE (w + f))).
Proof.
  split; [exact filled_count_opp|].
  intros p w Hp Hw Hpw.
  destruct (filled_count_small p w) as (f & Hf & Hb); try lia.
  exists f. split; [exact Hf|]. split; [lia|].
  assert (Hneg : filled_count (- p) w = Ok (- f))
    by (now rewrite filled_count_opp, Hf).
  rewrite (draw_bar_of_count _ _ _ Hneg) by lia.
  rewrite (str_repeat_nonpos FULL_BLOCK) by lia.
  cbn [app]. do 2 f_equal. lia.
Qed.

Lemma draw_bar_negative_witness :
  0 < 50 < 100 * 2 ^ 45 /\ 0 <= 40 <= 2 ^ 53 /\ 50 * 40 < 100 * 2 ^ 45 /\
  exists f : Z,
    filled_count 50 40 = Ok f /\ 0 <= f /\
    draw_bar (- 50) 40 = Ok (str_repeat LIGHT_SHADE (40 + f)).
Proof.
  split; [lia|]. split; [lia|]. split; [lia|].
  apply (proj2 draw_bar_negative 50 40); lia.
Defined.

(** ** The digits of a size *)

Lemma str_of_int_digit (n : Z) :
  0 <= n <= 9 -> str_of_int n = [Z.to_N (48 + n)].
Proof.
  intros Hn.
  assert (Hall : forallb
            (fun d => str_eqb (str_of_int d) [Z.to_N (48 + d)])
            (zrange 0 10) = true) by (vm_compute; reflexivity).
  pose proof (zrange_forallb _ 0 10 Hall n ltac:(lia)) as H.
  cbv beta in H. unfold str_eqb in H.
  now destruct (list_eq_dec N.eq_dec (str_of_int n) [Z.to_N (48 + n)]).
Qed.

Lemma zrange_forallb_to_nat (P : Z -> bool) (lo k : Z) :
  forallb P (zrange lo (Z.to_nat k)) = true ->
  forall z, lo <= z < lo + k -> P z = true.
Proof.
  intros Hall z Hz. apply (zrange_forallb P lo (Z.to_nat k) Hall). lia.
Qed.

Lemma len_str_of_int_small (n : Z) :
  0 <= n < 10001 -> 1 <= len (str_of_int n) <= 5 /\
  (n < 10000 -> len (str_of_int n) <= 4) /\
  (n < 1000 -> len (str_of_int n) <= 3).
Proof.
  intros Hn.
  assert (Hall : forallb
            (fun n => let l := len (str_of_int n) in
               (1 <=? l) && (l <=? 5) &&
               ((10000 <=? n) || (l <=? 4)) &&
               ((1000 <=? n) || (l <=? 3)))
            (zrange 0 (Z.to_nat 10001)) = true) by (vm_compute; reflexivity).
  pose proof (zrange_forallb_to_nat _ 0 10001 Hall n ltac:(lia)) as H.
  cbv beta zeta in H.
  repeat (apply andb_true_iff in H; destruct H as [H ?]).
  repeat match goal with
         | H : (_ || _) = true |- _ => apply orb_true_iff in H
         end.
  repeat match goal with
         | H : (_ <=? _) = true |- _ => apply Z.leb_le in H
         | H : _ \/ (_ <=? _) = true |- _ =>
             destruct H as [H|H]; [apply Z.leb_le in H|apply Z.leb_le in H]
         end; lia.
Qed.

Lemma size_tenths (kb : Z) :
  1024 <= kb < 2 ^ 53 ->
  format_size kb = Ok (render_tenths (rne_div (10 * kb) 1024)).
Proof.
  intros Hkb. rewrite format_size_exact by lia.
  unfold spec_format_size, render_tenths.
  destruct (1024 <=? kb) eqn:Hc; [reflexivity|apply Z.leb_gt in Hc; lia].
Qed.

(** X7: from 1024 KB up to [2 ^ 53] KB, [format_size(kb)] is an integer
    part, a point, exactly one digit and "MB", for a number of tenths of a
    megabyte [t >= 10] that is within one half of [10 * kb / 1024]: the size
    printed is within 0.05 MB of the size given. *)
Theorem format_size_megabytes (kb : Z) :
  1024 <= kb < 2 ^ 53 ->
  exists t : Z,
    format_size kb =
      Ok (str_of_int (t / 10) ++ lit "." ++ [Z.to_N (48 + t mod 10)] ++
          lit "MB") /\
    10 <= t /\ 1 <= t / 10 /\ 0 <= t mod 10 <= 9 /\
    Z.abs (1024 * t - 10 * kb) <= 512.
Proof.
  intros Hkb. exists (rne_div (10 * kb) 1024).
  pose proof (Z.mod_pos_bound (rne_div (10 * kb) 1024) 10 ltac:(lia)) as Hd.
  pose proof (rne_div_error (10 * kb) 1024 ltac:(lia)) as [Hu Hl].
  assert (Ht : 10 <= rne_div (10 * kb) 1024) by (apply rne_div_ge; lia).
  split; [|split; [exact Ht|split; [|split; [lia|lia]]]].
  - rewrite size_tenths by lia. unfold render_tenths.
    now rewrite (str_of_int_digit (_ mod 10)) by lia.
  - apply Z.div_le_lower_bound; lia.
Qed.

Lemma format_size_megabytes_witness :
  1024 <= 1220 < 2 ^ 53 /\
  exists t : Z,
    format_size 1220 =
      Ok (str_of_int (t / 10) ++ lit "." ++ [Z.to_N (48 + t mod 10)] ++
          lit "MB") /\
    10 <= t /\ 1 <= t / 10 /\ 0 <= t mod 10 <= 9 /\
    Z.abs (1024 * t - 10 * 1220) <= 512.
Proof. split; [lia|]. apply (format_size_megabytes 1220). lia. Defined.

(** X8: from 1024 KB up to [2 ^ 53] KB, a larger size is never printed as a
    smaller number of megabytes: [format_size(kb1)] and [format_size(kb2)]
    print [t1] and [t2] tenths of a megabyte with [t1 <= t2] when
    [kb1 <= kb2]. *)
Theorem format_size_monotone (kb1 kb2 : Z) :
  1024 <= kb1 -> kb1 <= kb2 -> kb2 < 2 ^ 53 ->
  exists t1 t2 : Z,
    format_size kb1 = Ok (render_tenths t1) /\
    format_size kb2 = Ok (render_tenths t2) /\
    t1 <= t2.
Proof.
  intros H1 H12 H2.
  exists (rne_div (10 * kb1) 1024), (rne_div (10 * kb2) 1024).
  split; [apply size_tenths; lia|]. split; [apply size_tenths; lia|].
  apply rne_div_mono; lia.
Qed.

Lemma format_size_monotone_witness :
  1024 <= 1279 /\ 1279 <= 1280 /\ 1280 < 2 ^ 53 /\
  exists t1 t2 : Z,
    format_size 1279 = Ok (render_tenths t1) /\
    format_size 1280 = Ok (render_tenths t2) /\
    t1 <= t2.
Proof.
  split; [lia|]. split; [lia|]. split; [lia|].
  apply (format_size_monotone 1279 1280); lia.
Defined.

(** ** The layout of a row *)

Lemma len_ljust (w : Z) (s : str) : len s <= w -> len (ljust w s) = w.
Proof.
  intros Hs. unfold ljust. change (lit " ") with [32%N].
  rewrite len_app, len_str_repeat_char. lia.
Qed.

Lemma len_rjust (w : Z) (s : str) : len s <= w -> len (rjust w s) = w.
Proof.
  intros Hs. unfold rjust. change (lit " ") with [32%N].
  rewrite len_app, len_str_repeat_char. lia.
Qed.

Lemma len_slice_to (n : Z) (s : str) :
  0 <= n -> len (slice_to n s) = Z.min n (len s).
Proof.
  intros Hn. unfold slice_to, len. rewrite length_firstn. lia.
Qed.

Lemma len_format_size (kb : Z) (s : str) :
  0 <= kb < 1024000 -> format_size kb = Ok s -> len s <= 10.
Proof.
  intros Hkb Hs. rewrite format_size_exact in Hs by lia.
  injection Hs as <-. unfold spec_format_size.
  destruct (1024 <=? kb) eqn:Hc.
  - apply Z.leb_le in Hc.
    assert (Ht : 10 <= rne_div (10 * kb) 1024 <= 10000).
    { split; [apply rne_div_ge; lia|apply rne_div_le; lia]. }
    set (t := rne_div (10 * kb) 1024) in *.
    assert (Hq : 1 <= t / 10 <= 1000).
    { split; [apply Z.div_le_lower_bound; lia|apply Z.div_le_upper_bound; lia]. }
    pose proof (Z.mod_pos_bound t 10 ltac:(lia)) as Hd.
    rewrite !len_app, (str_of_int_digit (t mod 10)) by lia.
    destruct (len_str_of_int_small (t / 10) ltac:(lia)) as (_ & H4 & _).
    specialize (H4 ltac:(lia)). cbn. change (len [_]) with 1.
    change (len (lit ".")) with 1. lia.
  - apply Z.leb_gt in Hc. rewrite len_app.
    destruct (len_str_of_int_small kb ltac:(lia)) as (_ & H4 & _).
    specialize (H4 ltac:(lia)). change (len (lit "KB")) with 2. lia.
Qed.

Lemma skipn_app_exact {A : Type} (n : nat) (a b : list A) :
  List.length a = n -> skipn n (a ++ b) = b.
Proof.
  intros <-. rewrite skipn_app, skipn_all, Nat.sub_diag. reflexivity.
Qed.

Lemma firstn_app_exact {A : Type} (n : nat) (a b : list A) :
  List.length a = n -> firstn n (a ++ b) = a.
Proof.
  intros <-. rewrite firstn_app, firstn_all, Nat.sub_diag.
  cbn [firstn]. apply app_nil_r.
Qed.

(** X9: the columns of a row.  For every entry with a name of at most 20
    characters, a percentage in 0..100 and a size below 1024000 KB, the row
    is the name in 20 columns, a space, the size in 10 columns, a space, the
    percentage in 4 columns, the percent sign and two spaces, a bar of 40
    columns, two spaces and the description cut at 50 characters: the bar
    starts at column 39, the description at column 81, and the row has
    [81 + min(50, len(description))] characters.  The header gives the bar
    50 columns: its label Description starts at column 91. *)
Theorem row_layout :
  (forall c : ComponentEntry,
     len (name c) <= 20 -> 0 <= percentage c <= 100 ->
     0 <= size_kb c < 1024000 ->
     exists bar size_str : str,
       row_line c = Ok (row_text c bar size_str) /\
       len (ljust 20 (name c)) = 20 /\
       len (rjust 10 size_str) = 10 /\
       len (rjust 4 (str_of_int (percentage c))) = 4 /\
       len bar = 40 /\
       firstn 40 (skipn 39 (row_text c bar size_str)) = bar /\
       skipn 81 (row_text c bar size_str) = slice_to 50 (description c) /\
       len (row_text c bar size_str) = 81 + Z.min 50 (len (description c))) /\
  skipn 39 header_line =
    ljust 50 (lit "Bar") ++ lit "  " ++ ljust 30 (lit "Description") /\
  skipn 91 header_line = ljust 30 (lit "Description").
Proof.
  split; [|split; vm_compute; reflexivity].
  intros c Hname Hp Hs.
  destruct (filled_count_range (percentage c) BAR_WIDTH Hp)
    as (f & Hf & Hr); [unfold BAR_WIDTH; lia|].
  pose proof (draw_bar_of_count _ _ _ Hf ltac:(unfold BAR_WIDTH in Hr; lia)
                ltac:(unfold BAR_WIDTH in *; lia)) as Hbar.
  pose proof (format_size_exact (size_kb c) ltac:(lia)) as Hsize.
  set (bar := str_repeat FULL_BLOCK f ++
              str_repeat LIGHT_SHADE (BAR_WIDTH - f)) in *.
  set (size_str := spec_format_size (size_kb c)) in *.
  exists bar, size_str.
  assert (Hlbar : len bar = 40).
  { unfold bar. rewrite len_bar. unfold BAR_WIDTH in *. lia. }
  assert (Hl1 : len (ljust 20 (name c)) = 20) by now apply len_ljust.
  assert (Hl2 : len (rjust 10 size_str) = 10).
  { apply len_rjust. now apply (len_format_size (size_kb c)). }
  assert (Hl3 : len (rjust 4 (str_of_int (percentage c))) = 4).
  { apply len_rjust.
    destruct (len_str_of_int_small (percentage c) ltac:(lia)) as (_ & _ & H3).
    specialize (H3 ltac:(lia)). lia. }
  split; [unfold row_line; now rewrite Hbar, Hsize|].
  split; [exact Hl1|]. split; [exact Hl2|]. split; [exact Hl3|].
  split; [exact Hlbar|].
  unfold row_text, DESC_MAX.
  set (a := ljust 20 (name c)) in *. set (b := rjust 10 size_str) in *.
  set (p := rjust 4 (str_of_int (percentage c))) in *.
  set (d := slice_to 50 (description c)).
  assert (Hleft : List.length (a ++ lit " " ++ b ++ lit " " ++ p ++ lit "%  ")
                  = 39%nat).
  { rewrite !length_app. unfold len in Hl1, Hl2, Hl3. cbn. lia. }
  assert (Hassoc : a ++ lit " " ++ b ++ lit " " ++ p ++ lit "%  " ++ bar ++
                   lit "  " ++ d =
                   (a ++ lit " " ++ b ++ lit " " ++ p ++ lit "%  ") ++
                   bar ++ lit "  " ++ d)
    by (now rewrite <- !app_assoc).
  rewrite Hassoc.
  set (L := a ++ lit " " ++ b ++ lit " " ++ p ++ lit "%  ") in *.
  assert (Hbarn : List.length bar = 40%nat) by (unfold len in Hlbar; lia).
  split; [|split].
  - rewrite (skipn_app_exact 39) by exact Hleft.
    now apply firstn_app_exact.
  - rewrite (app_assoc L bar), (app_assoc (L ++ bar) (lit "  ")).
    apply skipn_app_exact.
    rewrite (length_app (L ++ bar)), (length_app L bar), Hleft, Hbarn.
    reflexivity.
  - rewrite (len_app L), (len_app bar), (len_app (lit "  ")), Hlbar.
    unfold len at 1. rewrite Hleft.
    unfold d. rewrite len_slice_to by lia.
    change (len (lit "  ")) with 2. change (Z.of_nat 39) with 39. lia.
Qed.

Lemma row_layout_witness :
  len (name long_entry) <= 20 /\ 0 <= percentage long_entry <= 100 /\
  0 <= size_kb long_entry < 1024000 /\
  exists bar size_str : str,
    row_line long_entry = Ok (row_text long_entry bar size_str) /\
    len (ljust 20 (name long_entry)) = 20 /\
    len (rjust 10 size_str) = 10 /\
    len (rjust 4 (str_of_int (percentage long_entry))) = 4 /\
    len bar = 40 /\
    firstn 40 (skipn 39 (row_text long_entry bar size_str)) = bar /\
    skipn 81 (row_text long_entry bar size_str) =
      slice_to 50 (description long_entry) /\
    len (row_text long_entry bar size_str) =
      81 + Z.min 50 (len (description long_entry)).
Proof.
  assert (H1 : len (name long_entry) <= 20) by (vm_compute; discriminate).
  split; [exact H1|]. split; [simpl; lia|]. split; [simpl; lia|].
  apply (proj1 row_layout long_entry H1); simpl; lia.
Defined.

(** X10: at every whole multiple of 100 percent the bar is exact: for
    [k >= 1] and a width [w >= 1] with [k * w < 2 ^ 53],
    [draw_bar(100 * k, w)] is exactly [k * w] filled glyphs and no empty
    one. *)
Theorem draw_bar_whole_multiples (k w : Z) :
  1 <= k -> 1 <= w -> k * w < 2 ^ 53 ->
  filled_count (100 * k) w = Ok (k * w) /\
  draw_bar (100 * k) w = Ok (str_repeat FULL_BLOCK (k * w)).
Proof.
  intros Hk Hw Hkw.
  assert (Hk53 : k < 2 ^ 53) by nia. assert (Hw53 : w < 2 ^ 53) by nia.
  assert (Hcount : filled_count (100 * k) w = Ok (k * w)).
  { unfold filled_count.
    rewrite (int_true_div_nonneg (100 * k) 100 53) by (unfold emax; lia).
    destruct (of_int_exact w ltac:(lia)) as (-> & Hy & Hy1).
    cbn [bind].
    assert (Hx : 0 <= mant (round_ratio (100 * k) 100))
      by (apply round_ratio_mant_nonneg; lia).
    assert (Hx1 : num (round_ratio (100 * k) 100) =
                  k * den (round_ratio (100 * k) 100)).
    { apply Z.le_antisymm.
      - apply round_ratio_le_small; lia.
      - apply round_ratio_ge_small; lia. }
    set (x := round_ratio (100 * k) 100) in *.
    set (y := round_ratio w 1) in *.
    pose proof (den_pos x) as Hdx. pose proof (den_pos y) as Hdy.
    assert (Hd : 0 < den x * den y) by nia.
    assert (Hprod : num x * num y = k * w * (den x * den y))
      by (rewrite Hx1, Hy1; ring).
    rewrite (mul_nonneg x y 53); auto; [|rewrite Hprod; nia|unfold emax; lia].
    set (f := round_ratio _ _).
    assert (Hf : 0 <= mant f) by (apply round_ratio_mant_nonneg; nia).
    rewrite to_int_nonneg by exact Hf.
    assert (Hval : num f = k * w * den f).
    { unfold f. apply Z.le_antisymm.
      - apply round_ratio_le_small; nia.
      - apply round_ratio_ge_small; nia. }
    rewrite Hval, Z.div_mul; [reflexivity|]. pose proof (den_pos f). lia. }
  split; [exact Hcount|].
  rewrite (draw_bar_of_count _ _ _ Hcount) by nia.
  rewrite (str_repeat_nonpos LIGHT_SHADE) by nia.
  now rewrite app_nil_r.
Qed.

Lemma draw_bar_whole_multiples_witness :
  1 <= 3 /\ 1 <= 40 /\ 3 * 40 < 2 ^ 53 /\
  filled_count (100 * 3) 40 = Ok (3 * 40) /\
  draw_bar (100 * 3) 40 = Ok (str_repeat FULL_BLOCK (3 * 40)).
Proof.
  split; [lia|]. split; [lia|]. split; [lia|].
  apply (draw_bar_whole_multiples 3 40); lia.
Defined.

(** ** The loop over the table *)

Lemma print_row_outcome (c : ComponentEntry) (w : World) :
  print_row c w =
  match row_line c with
  | Ok r => (Ok tt, emit (r ++ NEWLINE) w)
  | Raise e => (Raise e, w)
  end.
Proof.
  unfold print_row, row_line, io_bind, lift.
  destruct (draw_bar (percentage c) BAR_WIDTH); cbn [bind]; [|reflexivity].
  destruct (format_size (size_kb c)); reflexivity.
Qed.

Lemma row_line_in_range (c : ComponentEntry) :
  0 <= percentage c <= 100 -> 0 <= size_kb c < 2 ^ 53 ->
  exists r, row_line c = Ok r.
Proof.
  intros Hp Hs. unfold row_line.
  destruct (filled_count_range (percentage c) BAR_WIDTH Hp)
    as (f & Hf & Hr); [unfold BAR_WIDTH; lia|].
  unfold BAR_WIDTH in *.
  rewrite (draw_bar_of_count _ _ _ Hf) by lia.
  rewrite (format_size_exact _ Hs).
  eexists. reflexivity.
Qed.

Lemma emit_nil (w : World) : emit [] w = w.
Proof. destruct w. unfold emit. cbn. now rewrite app_nil_r. Qed.

(** X11: the loop prints one line per entry, in the order of the table, for
    every table whose entries have a percentage in 0..100 and a size in
    [0, 2 ^ 53).  When an entry cannot be formatted, the rows of the entries
    before it have been printed, the exception leaves the loop, and no row
    of a later entry is printed. *)
Theorem print_rows_lines :
  (forall cs : list ComponentEntry,
     Forall (fun c => 0 <= percentage c <= 100 /\ 0 <= size_kb c < 2 ^ 53) cs ->
     exists rows : list str,
       Forall2 (fun c r => row_line c = Ok r) cs rows /\
       List.length rows = List.length cs /\
       writes (print_rows cs) (unlines rows)) /\
  (forall (cs1 cs2 : list ComponentEntry) (c : ComponentEntry)
          (rows : list str) (e : exn),
     Forall2 (fun c r => row_line c = Ok r) cs1 rows ->
     row_line c = Raise e ->
     forall w : World,
       print_rows (cs1 ++ c :: cs2) w = (Raise e, emit (unlines rows) w)).
Proof.
  split.
  - induction 1 as [|c cs [Hp Hs] _ IH].
    + exists []. split; [constructor|]. split; [reflexivity|].
      apply writes_ret.
    + destruct IH as (rows & Hrows & Hlen & Hw).
      destruct (row_line_in_range c Hp Hs) as [r Hr].
      exists (r :: rows). split; [now constructor|].
      split; [cbn; now rewrite Hlen|].
      unfold print_rows in *. cbn [for_each unlines map List.concat].
      apply writes_seq; [|exact Hw].
      intros w. now rewrite print_row_outcome, Hr.
  - intros cs1 cs2 c rows e Hrows Hc.
    induction Hrows as [|c1 r1 cs1 rows Hr1 _ IH]; intros w.
    + unfold print_rows. cbn [app for_each]. unfold io_bind.
      rewrite print_row_outcome, Hc. cbn [unlines map List.concat].
      now rewrite emit_nil.
    + unfold print_rows in *. cbn [app for_each]. unfold io_bind at 1.
      rewrite print_row_outcome, Hr1, IH.
      cbn [unlines map List.concat]. now rewrite emit_emit.
Qed.

Lemma print_rows_lines_witness :
  (Forall (fun c => 0 <= percentage c <= 100 /\ 0 <= size_kb c < 2 ^ 53)
     components /\
   exists rows : list str,
     Forall2 (fun c r => row_line c = Ok r) components rows /\
     List.length rows = List.length components /\
     writes (print_rows components) (unlines rows)) /\
  (Forall2 (fun c r => row_line c = Ok r) [long_entry] [long_entry_row] /\
   row_line huge_entry = Raise OverflowError /\
   forall w : World,
     print_rows ([long_entry] ++ huge_entry :: components) w =
     (Raise OverflowError, emit (unlines [long_entry_row]) w)).
Proof.
  split.
  - assert (H : Forall (fun c => 0 <= percentage c <= 100 /\
                                 0 <= size_kb c < 2 ^ 53) components).
    { unfold components. repeat (apply Forall_cons; [simpl; lia|]).
      apply Forall_nil. }
    split; [exact H|]. exact (proj1 print_rows_lines components H).
  - assert (H1 : Forall2 (fun c r => row_line c = Ok r)
                   [long_entry] [long_entry_row]).
    { constructor; [vm_compute; reflexivity|constructor]. }
    assert (H2 : row_line huge_entry = Raise OverflowError)
      by (vm_compute; reflexivity).
    split; [exact H1|]. split; [exact H2|].
    exact (proj2 print_rows_lines [long_entry] components huge_entry
             [long_entry_row] OverflowError H1 H2).
Defined.

(** ** Sizes halfway between two tenths *)

(** X12: a size halfway between two tenths of a megabyte is printed with the
    even tenth, not rounded up: for every odd [m >= 5] with
    [256 * m < 2 ^ 53], [256 * m / 1024] is [5 * m / 20], halfway between two
    tenths, and [format_size(256 * m)] prints the even one of
    [(5 * m - 1) / 2] and [(5 * m + 1) / 2] tenths; so
    [format_size(1280) = "1.2MB"], for 1.25 megabytes. *)
Theorem format_size_ties_to_even :
  (forall m : Z, 5 <= m -> Z.odd m = true -> 256 * m < 2 ^ 53 ->
     exists t : Z,
       format_size (256 * m) = Ok (render_tenths t) /\
       Z.even t = true /\
       (2 * t = 5 * m - 1 \/ 2 * t = 5 * m + 1)) /\
  format_size 1280 = Ok (lit "1.2MB").
Proof.
  split; [|vm_compute; reflexivity].
  intros m Hm Hodd Hlt.
  exists (rne_div (10 * (256 * m)) 1024).
  split; [apply size_tenths; lia|].
  replace (10 * (256 * m)) with (512 * (5 * m)) by ring.
  change 1024 with (512 * 2).
  rewrite rne_div_scale by lia.
  apply Z.odd_spec in Hodd. destruct Hodd as [j Hj].
  pose proof (Z.div_mod (5 * m) 2 ltac:(lia)) as Hd.
  pose proof (Z.mod_pos_bound (5 * m) 2 ltac:(lia)) as Hr.
  assert (Hm2 : (5 * m) mod 2 = 1) by lia.
  rewrite Hm2 in Hd.
  unfold rne_div. rewrite Hm2. change (2 * 1 ?= 2) with Eq. cbv iota.
  destruct (Z.even (5 * m / 2)) eqn:He.
  - split; [exact He|]. left. lia.
  - split.
    + replace (5 * m / 2 + 1) with (Z.succ (5 * m / 2)) by lia.
      rewrite Z.even_succ, <- Z.negb_even, He. reflexivity.
    + right. lia.
Qed.

Lemma format_size_ties_to_even_witness :
  5 <= 7 /\ Z.odd 7 = true /\ 256 * 7 < 2 ^ 53 /\
  exists t : Z,
    format_size (256 * 7) = Ok (render_tenths t) /\
    Z.even t = true /\
    (2 * t = 5 * 7 - 1 \/ 2 * t = 5 * 7 + 1).
Proof.
  split; [lia|]. split; [reflexivity|]. split; [lia|].
  apply (proj1 format_size_ties_to_even 7); [lia|reflexivity|lia].
Defined.
